(** * Verification of the custom logic of the two course notebooks

    - [Project 3_Rating_Prediction/NCF method.ipynb]: the vocabulary builder,
      the index lookups, the [rmse] metric and [build_ncf_model];
    - [Project 1_Sentiment_Analysis/inference.ipynb]: [load_data] and the label
      decode of [SAM.predict].

    Python dictionaries are finite maps ([gmap]), Python exceptions are the
    [Raise] branch of a result type, console output is an explicit log, and
    numeric arrays are lists of real numbers (exact arithmetic: the rounding
    of the machine floats is outside this model). *)

From Stdlib Require Import ZArith Reals Lra.
From stdpp Require Import gmap strings list fin_maps pretty.

Set Warnings "-clear-no-such-hyp".
Open Scope Z_scope.

(** ** Python exceptions as values *)

Inductive exn : Type :=
| KeyError (key : string)
| IndexError
| ValueError
| RuntimeError
| NotImplementedError
| FileNotFoundError (path : string).

Inductive result (A : Type) : Type :=
| Ok (a : A)
| Raise (e : exn).
Arguments Ok {A} a.
Arguments Raise {A} e.

Definition rbind {A B} (r : result A) (k : A → result B) : result B :=
  match r with
  | Ok a => k a
  | Raise e => Raise e
  end.

Fixpoint rmapM {A B} (f : A → result B) (l : list A) : result (list B) :=
  match l with
  | [] => Ok []
  | x :: l' => rbind (f x) (λ y, rbind (rmapM f l') (λ ys, Ok (y :: ys)))
  end.

(** ** The vocabulary builder (NCF notebook, cell "Building two dictionaries") *)

Module Vocab.

(** [Series.unique()]: the distinct values in order of first appearance. *)
Fixpoint unique_from (seen : list string) (l : list string) : list string :=
  match l with
  | [] => []
  | x :: l' =>
      if decide (x ∈ seen) then unique_from seen l'
      else x :: unique_from (x :: seen) l'
  end.

Definition unique (l : list string) : list string := unique_from [] l.

(** [range(a, b)] *)
Definition range (a b : Z) : list Z := seqZ a (b - a).

(** [dict(pairs)]: the pairs are inserted from left to right, a later pair
    overriding an earlier one with the same key. *)
Definition dict (pairs : list (string * Z)) : gmap string Z :=
  foldl (λ d kv, <[kv.1 := kv.2]> d) ∅ pairs.

(** [len(d)] *)
Definition len_dict (d : gmap string Z) : Z := Z.of_nat (size d).

(** [len(l)] *)
Definition len {A} (l : list A) : Z := Z.of_nat (length l).

(** <<
    user_set = list(tr_df.ReviewerID.unique())
    user_vocab = dict(zip(user_set, range(1, len(user_set) + 1)))
    user_vocab['unk'] = 0
    n_users = len(user_vocab)
    >> *)
Definition id_set (column : list string) : list string := unique column.

Definition numbered (column : list string) : gmap string Z :=
  let user_set := id_set column in
  dict (zip user_set (range 1 (len user_set + 1))).

Definition build_vocab (column : list string) : gmap string Z :=
  <["unk" := 0]> (numbered column).

Definition n_of (column : list string) : Z := len_dict (build_vocab column).

(** [d[x]]: raises [KeyError] on a missing key. *)
Definition getitem (d : gmap string Z) (x : string) : result Z :=
  match d !! x with
  | Some i => Ok i
  | None => Raise (KeyError x)
  end.

(** [x in d] *)
Definition contains (d : gmap string Z) (x : string) : bool :=
  bool_decide (is_Some (d !! x)).

(** The number of distinct IDs of a column, counted on the set of its
    entries (independently of [unique]). *)
Definition distinct_count (column : list string) : Z :=
  Z.of_nat (size (list_to_set column : gset string)).

(** The builder's contract as the specification words it, for a column
    [column] and a dictionary [V], with [N] the number of distinct IDs:
    every raw ID has an index, which lies in [1, N]; distinct IDs have
    distinct indices; every index of [1, N] is taken; the [k]-th distinct ID
    in first-seen order (counting from 0) has index [k + 1]; and ["unk"] has
    index 0. *)
Definition vocab_contract (column : list string) (V : gmap string Z) : Prop :=
  (∀ x, x ∈ column → ∃ i, V !! x = Some i ∧ 1 ≤ i ≤ distinct_count column)
  ∧ (∀ x y i, x ∈ column → y ∈ column →
       V !! x = Some i → V !! y = Some i → x = y)
  ∧ (∀ i, 1 ≤ i ≤ distinct_count column → ∃ x, x ∈ column ∧ V !! x = Some i)
  ∧ (∀ (k : nat) x, unique column !! k = Some x →
       V !! x = Some (Z.of_nat k + 1))
  ∧ V !! "unk" = Some 0.

End Vocab.

(** ** The notebook's global state and the index-lookup cells

    The vocabularies are module-level variables that the lambdas of the
    lookup cells close over, so the cells are modelled as computations over
    the notebook's globals: a computation gets the globals, returns a value or
    raises, and hands the (possibly updated) globals on. *)

Module Notebook.

Record rating_df : Type := {
  ReviewerID : list string;
  ProductID : list string;
}.

Record globals : Type := {
  user_vocab : gmap string Z;
  business_vocab : gmap string Z;
  n_users : Z;
  n_items : Z;
  tr_users : list Z;
  tr_items : list Z;
  val_users : list Z;
  val_items : list Z;
  test_users : list Z;
  test_items : list Z;
}.

Definition M (A : Type) : Type := globals → result A * globals.

Definition ret {A} (a : A) : M A := λ g, (Ok a, g).

Definition bind {A B} (m : M A) (k : A → M B) : M B :=
  λ g, match m g with
       | (Ok a, g') => k a g'
       | (Raise e, g') => (Raise e, g')
       end.

#[global] Instance M_ret : MRet M := @ret.
#[global] Instance M_bind : MBind M := λ A B k m, bind m k.

(** [x in d] and [d[x]] on a global dictionary [d]. *)
Definition global_contains (d : globals → gmap string Z) (x : string) : M bool :=
  λ g, (Ok (Vocab.contains (d g) x), g).

Definition global_getitem (d : globals → gmap string Z) (x : string) : M Z :=
  λ g, (Vocab.getitem (d g) x, g).

(** [lambda x: user_vocab[x]] (training cell). *)
Definition train_lambda (d : globals → gmap string Z) (x : string) : M Z :=
  global_getitem d x.

(** [lambda x: user_vocab[x] if x in user_vocab else 0]
    (validation and test cells). *)
Definition serving_lambda (d : globals → gmap string Z) (x : string) : M Z :=
  b ← global_contains d x;
  if b : bool then global_getitem d x else ret 0.

(** [Series.apply(f).values]: [f] on every entry in order; the first
    exception aborts. *)
Fixpoint series_apply (f : string → M Z) (column : list string) : M (list Z) :=
  match column with
  | [] => ret []
  | x :: rest =>
      i ← f x;
      js ← series_apply f rest;
      ret (i :: js)
  end.

(** Assignments to the globals of the notebook. *)
Definition set_vocabs (uv bv : gmap string Z) (nu ni : Z) : M () :=
  λ g, (Ok (),
        {| user_vocab := uv; business_vocab := bv; n_users := nu; n_items := ni;
           tr_users := tr_users g; tr_items := tr_items g;
           val_users := val_users g; val_items := val_items g;
           test_users := test_users g; test_items := test_items g |}).

Definition set_tr (us its : list Z) : M () :=
  λ g, (Ok (),
        {| user_vocab := user_vocab g; business_vocab := business_vocab g;
           n_users := n_users g; n_items := n_items g;
           tr_users := us; tr_items := its;
           val_users := val_users g; val_items := val_items g;
           test_users := test_users g; test_items := test_items g |}).

Definition set_val (us its : list Z) : M () :=
  λ g, (Ok (),
        {| user_vocab := user_vocab g; business_vocab := business_vocab g;
           n_users := n_users g; n_items := n_items g;
           tr_users := tr_users g; tr_items := tr_items g;
           val_users := us; val_items := its;
           test_users := test_users g; test_items := test_items g |}).

Definition set_test (us its : list Z) : M () :=
  λ g, (Ok (),
        {| user_vocab := user_vocab g; business_vocab := business_vocab g;
           n_users := n_users g; n_items := n_items g;
           tr_users := tr_users g; tr_items := tr_items g;
           val_users := val_users g; val_items := val_items g;
           test_users := us; test_items := its |}).

(** Cell "Building two dictionaries". *)
Definition cell_vocab (tr_df : rating_df) : M () :=
  set_vocabs (Vocab.build_vocab (ReviewerID tr_df))
             (Vocab.build_vocab (ProductID tr_df))
             (Vocab.n_of (ReviewerID tr_df))
             (Vocab.n_of (ProductID tr_df)).

(** Cell "Replacing the original user and item ids": the four assignments
    run in order, so the training lookups come first. *)
Definition cell_index (tr_df val_df : rating_df) : M () :=
  tu ← series_apply (train_lambda user_vocab) (ReviewerID tr_df);
  ti ← series_apply (train_lambda business_vocab) (ProductID tr_df);
  _ ← set_tr tu ti;
  vu ← series_apply (serving_lambda user_vocab) (ReviewerID val_df);
  vi ← series_apply (serving_lambda business_vocab) (ProductID val_df);
  set_val vu vi.

(** Cell "Save Test prediction", up to the model call. *)
Definition cell_test (test_df : rating_df) : M () :=
  tu ← series_apply (serving_lambda user_vocab) (ReviewerID test_df);
  ti ← series_apply (serving_lambda business_vocab) (ProductID test_df);
  set_test tu ti.

(** The validation half of [cell_index] on its own. *)
Definition cell_val (val_df : rating_df) : M () :=
  vu ← series_apply (serving_lambda user_vocab) (ReviewerID val_df);
  vi ← series_apply (serving_lambda business_vocab) (ProductID val_df);
  set_val vu vi.

(** A computation leaves both vocabularies as they were, whether it returns
    or raises. *)
Definition keeps_vocabs {A} (m : M A) : Prop :=
  ∀ g, user_vocab (m g).2 = user_vocab g
     ∧ business_vocab (m g).2 = business_vocab g.

Definition initial : globals :=
  {| user_vocab := ∅; business_vocab := ∅; n_users := 0; n_items := 0;
     tr_users := []; tr_items := []; val_users := []; val_items := [];
     test_users := []; test_items := [] |}.

End Notebook.

(** ** The RMSE metric (NCF notebook, cell "Root Mean Squared Error") *)

#[global] Instance R_eq_dec : EqDecision R := Req_dec_T.

Module Rmse.

(** [a.nonzero()] of a one-dimensional array: the positions of the entries
    that differ from zero, in increasing order. *)
Fixpoint nonzero_from (i : nat) (a : list R) : list nat :=
  match a with
  | [] => []
  | y :: a' =>
      if decide (y = 0%R) then nonzero_from (S i) a'
      else i :: nonzero_from (S i) a'
  end.

Definition nonzero (a : list R) : list nat := nonzero_from 0 a.

(** [arr[idx]] for an index array [idx]: the entries at these positions;
    a position past the end raises [IndexError]. *)
Definition take (arr : list R) (idx : list nat) : result (list R) :=
  rmapM (λ i, match arr !! i with
              | Some v => Ok v
              | None => Raise IndexError
              end) idx.

Definition sum_list (l : list R) : R := foldr Rplus 0%R l.

Definition mean (l : list R) : R := (sum_list l / INR (length l))%R.

Definition squared_error (t p : R) : R := ((t - p) * (t - p))%R.

(** Modelled from the spec: [sklearn.metrics.mean_squared_error] is library
    code that is not part of the sources. Following the specification
    (section 4.2) it is the mean of the squared differences of the two
    sequences, and on empty input, where that mean is undefined, it raises
    a domain error instead of returning NaN; sequences of different lengths
    are rejected in the same way. *)
Definition mean_squared_error (y_true y_pred : list R) : result R :=
  if negb (length y_true =? length y_pred)%nat then Raise ValueError
  else if (length y_true =? 0)%nat then Raise ValueError
  else Ok (mean (zip_with squared_error y_true y_pred)).

(** <<
    def rmse(pred, actual):
        pred = pred[actual.nonzero()].flatten()
        actual = actual[actual.nonzero()].flatten()
        return np.sqrt(mean_squared_error(pred, actual))
    >> *)
Definition rmse (pred actual : list R) : result R :=
  rbind (take pred (nonzero actual)) (λ pred',
  rbind (take actual (nonzero actual)) (λ actual',
  rbind (mean_squared_error pred' actual') (λ mse,
  Ok (sqrt mse)))).

(** What an index selection of [rmse] picks from an array as long as
    [actual]: the entries at the positions where [actual] is non-zero. *)
Definition select (arr actual : list R) : list R :=
  (filter (λ xa : R * R, xa.2 ≠ 0%R) (zip arr actual)).*1.

(** The metric as the specification words it: drop every pair whose actual
    value is zero, then take the square root of the mean of the squared
    differences over the remaining pairs. *)
Definition rated_pairs (pred actual : list R) : list (R * R) :=
  filter (λ pa, pa.2 ≠ 0%R) (zip pred actual).

Definition rmse_spec (pred actual : list R) : R :=
  sqrt (mean ((λ pa, ((pa.1 - pa.2) * (pa.1 - pa.2))%R)
              <$> rated_pairs pred actual)).

End Rmse.

(** ** [build_ncf_model] (NCF notebook)

    The Keras layer calls only build a symbolic graph; they are constructors
    of a graph type here, and the framework's own argument validation is not
    part of the model. *)

Module Ncf.

(** The [dropout] argument is passed on untouched; its default is the string
    ['0.15'], the callers pass floats. *)
Inductive pyvalue : Type :=
| PyStr (s : string)
| PyFloat (r : R).

Inductive tensor : Type :=
| Input (shape : list Z) (dtype name : string)
| Embedding (output_dim input_dim input_length : Z) (x : tensor)
| Reshape (target_shape : list Z) (x : tensor)
| Dot (axes : Z) (a b : tensor)
| Concatenate (a b : tensor)
| Dense (units : Z) (activation kernel_regularizer : option string) (x : tensor)
| Dropout (rate : pyvalue) (x : tensor).

Record Model : Type := {
  inputs : list tensor;
  outputs : tensor;
}.

Definition default_dropout : pyvalue := PyStr "0.15".
Definition default_output_layer : string := "dot".

Definition build_ncf_model (n_users n_items embed_size : Z)
    (dropout : pyvalue) (output_layer : string) : result Model :=
  let user_input := Input [1] "int32" "user_input" in
  let item_input := Input [1] "int32" "item_input" in
  let user_emb := Embedding embed_size n_users 1 user_input in
  let user_emb := Reshape [embed_size] user_emb in
  let item_emb := Embedding embed_size n_items 1 item_input in
  let item_emb := Reshape [embed_size] item_emb in
  rbind
    (if String.eqb output_layer "dot" then
       Ok (Dot 1 user_emb item_emb)
     else if String.eqb output_layer "mlp" then
       let mlp_input := Concatenate user_emb item_emb in
       let dense_1 := Dense 64 (Some "relu") (Some "l2") mlp_input in
       let dense_1_dp := Dropout dropout dense_1 in
       let dense_2 := Dense 32 (Some "relu") (Some "l2") dense_1_dp in
       let dense_2_dp := Dropout dropout dense_2 in
       Ok (Dense 1 None None dense_2_dp)
     else Raise NotImplementedError)
    (λ model_output,
       Ok {| inputs := [user_input; item_input]; outputs := model_output |}).


(** The dropout rates that occur in a graph, from the output backwards. *)
Fixpoint dropout_rates (t : tensor) : list pyvalue :=
  match t with
  | Input _ _ _ => []
  | Embedding _ _ _ x => dropout_rates x
  | Reshape _ x => dropout_rates x
  | Dot _ a b => dropout_rates a ++ dropout_rates b
  | Concatenate a b => dropout_rates a ++ dropout_rates b
  | Dense _ _ _ x => dropout_rates x
  | Dropout rate x => rate :: dropout_rates x
  end.

(** The embedding tables of a graph as (rows, width), from the output
    backwards. *)
Fixpoint embedding_tables (t : tensor) : list (Z * Z) :=
  match t with
  | Input _ _ _ => []
  | Embedding output_dim input_dim _ x =>
      (input_dim, output_dim) :: embedding_tables x
  | Reshape _ x => embedding_tables x
  | Dot _ a b => embedding_tables a ++ embedding_tables b
  | Concatenate a b => embedding_tables a ++ embedding_tables b
  | Dense _ _ _ x => embedding_tables x
  | Dropout _ x => embedding_tables x
  end.

End Ncf.

(** ** The parameter sweep (NCF notebook, cell "Parameter-Tuning on MLP") *)

Module Sweep.

(** What the loop has done so far: the counter [i], the checkpoint files
    handed to [ModelCheckpoint], and the printed report lines (file name,
    embedding size, dropout, validation RMSE). *)
Record report : Type := {
  report_name : string;
  report_embed : Z;
  report_dropout : Ncf.pyvalue;
  report_rmse : R;
}.

Record state : Type := {
  counter : Z;
  checkpoints : list string;
  printed : list report;
}.

Definition checkpoint_file (i : Z) : string :=
  "models/model" +:+ pretty i +:+ ".h5".

Definition report_file (i : Z) : string := "model" +:+ pretty i +:+ ".h5".

Section sweep.

(** [model.compile], [model.fit] with the checkpoint callback and
    [model.predict] on the validation inputs belong to the framework: one
    black box from the built model and the checkpoint file to the
    predictions. *)
Variable fit_predict : Ncf.Model → string → list R.
Variable n_users n_items : Z.
Variable val_ratings : list R.

(** One round of the inner loop body; an exception ends the sweep and keeps
    what was done before it. *)
Definition round (embed : Z) (dp : Ncf.pyvalue) (st : state)
  : result () * state :=
  match Ncf.build_ncf_model n_users n_items embed dp "mlp" with
  | Raise e => (Raise e, st)
  | Ok model =>
      let file := checkpoint_file (counter st) in
      let y_pred := fit_predict model file in
      let st := {| counter := counter st;
                   checkpoints := checkpoints st ++ [file];
                   printed := printed st |} in
      match Rmse.rmse y_pred val_ratings with
      | Raise e => (Raise e, st)
      | Ok score =>
          (Ok (),
           {| counter := counter st + 1;
              checkpoints := checkpoints st;
              printed := printed st
                         ++ [{| report_name := report_file (counter st);
                                report_embed := embed;
                                report_dropout := dp;
                                report_rmse := score |}] |})
      end
  end.

Fixpoint inner_loop (embed : Z) (dropouts : list Ncf.pyvalue) (st : state)
  : result () * state :=
  match dropouts with
  | [] => (Ok (), st)
  | dp :: dropouts' =>
      match round embed dp st with
      | (Ok _, st') => inner_loop embed dropouts' st'
      | (Raise e, st') => (Raise e, st')
      end
  end.

Fixpoint outer_loop (embed_sizes : list Z) (dropouts : list Ncf.pyvalue)
    (st : state) : result () * state :=
  match embed_sizes with
  | [] => (Ok (), st)
  | embed :: embed_sizes' =>
      match inner_loop embed dropouts st with
      | (Ok _, st') => outer_loop embed_sizes' dropouts st'
      | (Raise e, st') => (Raise e, st')
      end
  end.

(** <<
    i = 0
    for embed in embed_sizes:
        for dp in dropouts:
            ...
            i+=1
    >> *)
Definition sweep (embed_sizes : list Z) (dropouts : list Ncf.pyvalue)
  : result () * state :=
  outer_loop embed_sizes dropouts
    {| counter := 0; checkpoints := []; printed := [] |}.

End sweep.

Definition len_list {A} (l : list A) : Z := Z.of_nat (length l).

(** The files written so far are model0, model1, ... in this order. *)
Definition files_upto (n : nat) (st : state) : Prop :=
  checkpoints st = checkpoint_file <$> seqZ 0 (Z.of_nat n).

(** Between two rounds: [n] rounds are done, the counter is [n]. *)
Definition in_step (st : state) : Prop :=
  ∃ n : nat, counter st = Z.of_nat n ∧ files_upto n st
             ∧ length (printed st) = n.

(** After the sweep, finished or stopped by an exception. *)
Definition stopped (st : state) : Prop :=
  ∃ n : nat, files_upto n st ∧ (length (printed st) ≤ n)%nat.

(** The lists of the notebook. *)
Definition embed_sizes : list Z := [16; 50; 64; 128].
Definition dropouts : list Ncf.pyvalue :=
  [Ncf.PyFloat 0; Ncf.PyFloat (15 / 100); Ncf.PyFloat (3 / 10)].

End Sweep.

(** ** The sentiment notebook: [load_data] and [SAM.predict] *)

Module Sentiment.

(** A dataframe: its columns in order, each a label with its cells. *)
Definition DataFrame : Type := list (string * list string).

Definition column_labels (df : DataFrame) : list string := df.*1.

(** Console output is a log of printed lines; a computation returns or
    raises, and in both cases hands the log on. *)
Definition IO (A : Type) : Type := list string → result A * list string.

Definition io_ret {A} (a : A) : IO A := λ out, (Ok a, out).

Definition io_bind {A B} (m : IO A) (k : A → IO B) : IO B :=
  λ out, match m out with
         | (Ok a, out') => k a out'
         | (Raise e, out') => (Raise e, out')
         end.

Definition print (line : string) : IO () := λ out, (Ok (), out ++ [line]).

Definition lift {A} (r : result A) : IO A := λ out, (r, out).

(** [try: body  except: handler] with a bare [except], which catches every
    exception; what the body printed before raising stays printed. *)
Definition try_except {A} (body handler : IO A) : IO A :=
  λ out, match body out with
         | (Ok a, out') => (Ok a, out')
         | (Raise _, out') => handler out'
         end.

(** [df.loc[:, columns]]: the listed columns in the listed order; a label
    that the frame does not have raises [KeyError]. *)
Definition get_column (df : DataFrame) (label : string)
  : result (string * list string) :=
  match list_find (λ c, c.1 = label) df with
  | Some (_, c) => Ok c
  | None => Raise (KeyError label)
  end.

Definition loc_columns (df : DataFrame) (columns : list string)
  : result DataFrame :=
  rmapM (get_column df) columns.

Definition csv_path (folder split_name : string) : string :=
  folder +:+ "/" +:+ split_name +:+ ".csv".

Definition select_message (columns : list string) (split_name : string)
  : string :=
  "select [" +:+ String.concat ", " columns +:+ "] columns from the "
  +:+ split_name +:+ " split".

Definition failed_message (split_name : string) : string :=
  "Failed loading specified columns... Returning all columns from the "
  +:+ split_name +:+ " split".

Section load_data.

(** [pd.read_csv]: the files on disk, which [load_data] only reads. *)
Variable read_csv : string → result DataFrame.

(** <<
    def load_data(split_name='train', columns=['text', 'label'], folder='data'):
        try:
            print(f"select [{', '.join(columns)}] columns from the {split_name} split")
            df = pd.read_csv(f'{folder}/{split_name}.csv')
            df = df.loc[:,columns]
            print("Success")
            return df
        except:
            print(f"Failed loading specified columns... Returning all columns from the {split_name} split")
            df = pd.read_csv(f'{folder}/{split_name}.csv')
            return df
    >> *)
Definition load_data (split_name : string) (columns : list string)
    (folder : string) : IO DataFrame :=
  try_except
    (io_bind (print (select_message columns split_name)) (λ _,
     io_bind (lift (read_csv (csv_path folder split_name))) (λ df,
     io_bind (lift (loc_columns df columns)) (λ df,
     io_bind (print "Success") (λ _,
     io_ret df)))))
    (io_bind (print (failed_message split_name)) (λ _,
     io_bind (lift (read_csv (csv_path folder split_name))) (λ df,
     io_ret df))).

End load_data.

(** The classifier: the tokenizer and the pretrained encoder are black
    boxes; the linear head has one weight row and one bias per class. *)
Record SAM : Type := {
  class_num : nat;
  max_len : nat;
  linear_weight : list (list R);
  linear_bias : list R;
}.

(** [nn.Linear(768, class_num, bias=True)] allocates [class_num] rows and
    biases, and loading a checkpoint keeps these shapes. *)
Definition linear_shape_ok (m : SAM) : Prop :=
  length (linear_weight m) = class_num m ∧ length (linear_bias m) = class_num m.

Definition dot (u v : list R) : R := foldr Rplus 0%R (zip_with Rmult u v).

(** [self.linear(output)[0]] *)
Definition linear (m : SAM) (x : list R) : list R :=
  zip_with (λ row b, (dot row x + b)%R) (linear_weight m) (linear_bias m).

(** [t.softmax(0)] *)
Definition softmax (t : list R) : list R :=
  (λ x, (exp x / foldr Rplus 0%R (exp <$> t))%R) <$> t.

(** [t.argmax()]: the position of the first maximal entry; an empty tensor
    is an error. *)
Fixpoint argmax_from (best : R) (best_i i : nat) (t : list R) : nat :=
  match t with
  | [] => best_i
  | x :: t' =>
      if Rlt_dec best x then argmax_from x i (S i) t'
      else argmax_from best best_i (S i) t'
  end.

Definition argmax (t : list R) : result nat :=
  match t with
  | [] => Raise RuntimeError
  | x :: t' => Ok (argmax_from x 0 1 t')
  end.

Section predict.

Variable encoding : Type.
(** [self.tokenizer.encode_plus(text, ..., max_length=self.max_len, ...)] *)
Variable encode_plus : string → nat → encoding.
(** [self.pretrained_model(...).pooler_output] *)
Variable pooler_output : encoding → list R.

Definition logits (m : SAM) (text : string) : list R :=
  linear m (pooler_output (encode_plus text (max_len m))).

(** <<
    logits = self.linear(output)
    label = logits[0].softmax(0).argmax() + 1
    return {'label': label}
    >> *)
Definition predict (m : SAM) (text : string) : result nat :=
  rbind (argmax (softmax (logits m text))) (λ i, Ok (i + 1)%nat).






End predict.

(** [count_trainable_parameters] *)
Record parameter : Type := {
  requires_grad : bool;
  numel : nat;
}.

Section count.

(** [print(table)]: the rendering of a [PrettyTable] is the library's. *)
Variable render : list string → list (string * nat) → string.

(** The loop over [model.named_parameters()], with the table rows and the
    running total as accumulators. *)
Fixpoint count_loop (named_parameters : list (string * parameter))
    (rows : list (string * nat)) (total_params : nat)
  : list (string * nat) * nat :=
  match named_parameters with
  | [] => (rows, total_params)
  | (name, p) :: rest =>
      if negb (requires_grad p) then count_loop rest rows total_params
      else count_loop rest (rows ++ [(name, numel p)])
                      (total_params + numel p)
  end.

Definition count_trainable_parameters
    (named_parameters : list (string * parameter)) : IO nat :=
  let '(rows, total_params) := count_loop named_parameters [] 0%nat in
  io_bind (print (render ["Modules"; "Parameters"] rows)) (λ _,
  io_bind (print ("Total Trainable Params: " +:+ pretty total_params)) (λ _,
  io_ret total_params)).

End count.

End Sentiment.

(** ** Concrete inputs used in the examples below *)

Module Samples.
Import Sentiment.

Definition valid_csv : DataFrame :=
  [("id", ["A29_6848"; "A1F_10874"]);
   ("text", ["fine"; "great"]);
   ("label", ["3"; "4"])].

Definition disk (path : string) : result DataFrame :=
  if String.eqb path "data/valid.csv" then Ok valid_csv
  else Raise (FileNotFoundError path).

(** A two-class head over a one-dimensional pooled output. *)
Definition two_class : SAM :=
  {| class_num := 2; max_len := 256;
     linear_weight := [[1%R]; [2%R]]; linear_bias := [0%R; 0%R] |}.

Definition encode_length (text : string) (max_len : nat) : nat :=
  Nat.min (String.length text) max_len.

Definition pooled (n : nat) : list R := [INR n].

End Samples.

(* ================================================================= *)
(** * Properties *)

Example vocab_scenario :
  Vocab.build_vocab ["u1"; "u2"]
  = <["unk" := 0]> (<["u2" := 2]> (<["u1" := 1]> ∅)).
Proof. reflexivity. Qed.

(** ** Facts about [unique], [dict] and the vocabulary *)

Section vocab_facts.
Import Vocab.

Lemma elem_of_unique_from seen l x :
  x ∈ unique_from seen l ↔ x ∈ l ∧ x ∉ seen.
Proof.
  revert seen. induction l as [|y l IH]; intros seen; simpl.
  - split; [intros H; inversion H | intros [H _]; inversion H].
  - case_decide as Hy.
    + rewrite IH, elem_of_cons. split; [tauto|].
      intros [[->|?] ?]; tauto.
    + rewrite !elem_of_cons, IH, elem_of_cons. split.
      * intros [->|[? ?]]; tauto.
      * intros [[->|?] ?]; [tauto|].
        destruct (decide (x = y)); tauto.
Qed.

Lemma NoDup_unique_from seen l : NoDup (unique_from seen l).
Proof.
  revert seen. induction l as [|y l IH]; intros seen; simpl.
  - constructor.
  - case_decide; [apply IH|]. constructor; [|apply IH].
    rewrite elem_of_unique_from, elem_of_cons. tauto.
Qed.

(** First-seen order: reading one more entry either changes nothing (the
    entry was seen before) or appends it after everything seen so far. *)
Lemma unique_from_snoc seen l x :
  unique_from seen (l ++ [x])
  = unique_from seen l ++ (if decide (x ∈ seen ∨ x ∈ l) then [] else [x]).
Proof.
  revert seen. induction l as [|y l IH]; intros seen; cbn [unique_from app].
  - rewrite (decide_ext (x ∈ seen) (x ∈ seen ∨ x ∈ [])); [done|].
    set_solver.
  - destruct (decide (y ∈ seen)) as [Hy|Hy].
    + rewrite IH. f_equal. apply decide_ext. set_solver.
    + cbn [app]. rewrite IH. do 2 f_equal. apply decide_ext. set_solver.
Qed.

(** What was read first stays in front: the distinct IDs of a prefix are a
    prefix of the distinct IDs. *)
Lemma unique_from_app seen l1 l2 :
  unique_from seen (l1 ++ l2)
  = unique_from seen l1
    ++ unique_from (reverse (unique_from seen l1) ++ seen) l2.
Proof.
  revert seen. induction l1 as [|y l1 IH]; intros seen; cbn [unique_from app].
  - done.
  - destruct (decide (y ∈ seen)) as [Hy|Hy]; [apply IH|].
    cbn [app]. rewrite IH, reverse_cons, <-app_assoc. done.
Qed.

Lemma elem_of_unique l x : x ∈ unique l ↔ x ∈ l.
Proof.
  unfold unique. rewrite elem_of_unique_from. split; [tauto|].
  intros H. split; [done|]. intros H'. inversion H'.
Qed.

Lemma NoDup_unique l : NoDup (unique l).
Proof. apply NoDup_unique_from. Qed.

Lemma unique_snoc l x :
  unique (l ++ [x]) = unique l ++ (if decide (x ∈ l) then [] else [x]).
Proof.
  unfold unique. rewrite unique_from_snoc. f_equal.
  apply decide_ext. set_solver.
Qed.

Lemma dict_snoc pairs k v :
  dict (pairs ++ [(k, v)]) = <[k := v]> (dict pairs).
Proof. unfold dict. by rewrite foldl_snoc. Qed.

Lemma dict_list_to_map pairs : dict pairs = list_to_map (reverse pairs).
Proof.
  induction pairs as [|[k v] pairs IH] using rev_ind; [done|].
  rewrite dict_snoc, reverse_snoc, list_to_map_cons. by rewrite IH.
Qed.

Lemma dict_lookup_NoDup pairs k v :
  NoDup pairs.*1 → dict pairs !! k = Some v ↔ (k, v) ∈ pairs.
Proof.
  intros Hnd. rewrite dict_list_to_map, <-elem_of_list_to_map.
  - apply elem_of_reverse.
  - by rewrite fmap_reverse, reverse_Permutation.
Qed.

Lemma dict_size_NoDup pairs :
  NoDup pairs.*1 → size (dict pairs) = length pairs.
Proof.
  intros Hnd. rewrite dict_list_to_map, map_size_list_to_map.
  - apply length_reverse.
  - by rewrite fmap_reverse, reverse_Permutation.
Qed.

Lemma length_range_len {A} (l : list A) :
  length (range 1 (len l + 1)) = length l.
Proof. unfold range, len. rewrite length_seqZ. lia. Qed.

Lemma numbered_keys column :
  (zip (id_set column) (range 1 (len (id_set column) + 1))).*1
  = id_set column.
Proof. apply fst_zip. rewrite length_range_len. lia. Qed.

(** The numbering before the reserved entry is written: the [k]-th distinct
    ID (counting from 0) has index [k + 1]. *)
Lemma numbered_lookup column x i :
  numbered column !! x = Some i
  ↔ ∃ k : nat, id_set column !! k = Some x ∧ i = Z.of_nat k + 1.
Proof.
  unfold numbered. cbv zeta. rewrite dict_lookup_NoDup.
  2:{ rewrite numbered_keys. apply NoDup_unique. }
  rewrite list_elem_of_lookup. split.
  - intros [k Hk]. exists k. apply lookup_zip_Some in Hk as [Hx Hi].
    split; [done|]. apply lookup_seqZ in Hi. lia.
  - intros (k & Hx & ->). exists k. apply lookup_zip_Some. split; [done|].
    apply lookup_seqZ. split; [lia|].
    apply lookup_lt_Some in Hx. unfold len. lia.
Qed.

Lemma numbered_lookup_None column x :
  numbered column !! x = None ↔ x ∉ column.
Proof.
  rewrite <-elem_of_unique. split.
  - intros Hn Hin. apply list_elem_of_lookup in Hin as [k Hk].
    assert (numbered column !! x = Some (Z.of_nat k + 1)) as Hs
      by (apply numbered_lookup; eauto).
    congruence.
  - intros Hn. destruct (numbered column !! x) as [i|] eqn:E; [|done].
    apply numbered_lookup in E as (k & Hk & _).
    exfalso. apply Hn. apply list_elem_of_lookup. eauto.
Qed.

Lemma numbered_size column :
  size (numbered column) = length (id_set column).
Proof.
  unfold numbered. cbv zeta. rewrite dict_size_NoDup.
  - rewrite length_zip_with_l_eq; [done|]. by rewrite length_range_len.
  - rewrite numbered_keys. apply NoDup_unique.
Qed.

End vocab_facts.


(** ** The vocabulary builder *)

Section vocab_builder.
Import Vocab.

Lemma len_unique_distinct_count column :
  len (unique column) = distinct_count column.
Proof.
  unfold len, distinct_count. f_equal.
  rewrite <-(size_list_to_set (C := gset string) (unique column))
    by apply NoDup_unique.
  f_equal. apply set_eq. intros x.
  by rewrite !elem_of_list_to_set, elem_of_unique.
Qed.

(** Writing the reserved entry changes no other key. *)
Lemma build_vocab_lookup_ne column x :
  x ≠ "unk" → build_vocab column !! x = numbered column !! x.
Proof. intros Hx. unfold build_vocab. by rewrite lookup_insert_ne. Qed.

Lemma build_vocab_unk column : build_vocab column !! "unk" = Some 0.
Proof. unfold build_vocab. by rewrite lookup_insert_eq. Qed.

(** First-seen order without reference to [unique]: an ID that first shows up
    after another one gets the larger index. *)
Lemma numbered_first_seen_order before x after y i j :
  y ∈ before → x ∉ before →
  numbered (before ++ x :: after) !! y = Some i →
  numbered (before ++ x :: after) !! x = Some j →
  i < j.
Proof.
  intros Hy Hx Hi Hj.
  apply numbered_lookup in Hi as (ky & Hky & ->).
  apply numbered_lookup in Hj as (kx & Hkx & ->).
  unfold id_set, unique in *. rewrite unique_from_app in Hky, Hkx.
  assert (unique_from [] before !! kx = None) as Hnone.
  { destruct (unique_from [] before !! kx) as [z|] eqn:E; [|done].
    exfalso. rewrite (lookup_app_l_Some _ _ _ _ E) in Hkx.
    injection Hkx as ->. apply Hx.
    apply (elem_of_unique before). apply list_elem_of_lookup. eauto. }
  apply lookup_ge_None in Hnone.
  assert (y ∈ unique_from [] before) as Hy' by by apply (elem_of_unique before).
  apply list_elem_of_lookup in Hy' as [k Hk].
  pose proof (lookup_lt_Some _ _ _ Hk) as Hlt.
  assert (ky = k) as ->.
  { eapply NoDup_lookup; [| exact Hky |].
    - rewrite <-unique_from_app. apply NoDup_unique_from.
    - by apply lookup_app_l_Some. }
  lia.
Qed.

(** The numbering alone (before the reserved entry is written) meets the
    first four parts of the contract on every column. *)
Lemma numbered_in_range column x i :
  numbered column !! x = Some i → 1 ≤ i ≤ distinct_count column.
Proof.
  intros (k & Hk & ->)%numbered_lookup.
  apply lookup_lt_Some in Hk. rewrite <-len_unique_distinct_count.
  unfold id_set, len in *. lia.
Qed.

Lemma numbered_injective column x y i :
  numbered column !! x = Some i → numbered column !! y = Some i → x = y.
Proof.
  intros (kx & Hx & ->)%numbered_lookup (ky & Hy & Heq)%numbered_lookup.
  assert (kx = ky) as -> by lia. congruence.
Qed.

Lemma numbered_onto column i :
  1 ≤ i ≤ distinct_count column →
  ∃ x, x ∈ column ∧ numbered column !! x = Some i.
Proof.
  rewrite <-len_unique_distinct_count. unfold len. intros Hi.
  destruct (lookup_lt_is_Some_2 (unique column) (Z.to_nat (i - 1)))
    as [x Hx]; [lia|].
  exists x. split.
  - apply elem_of_unique, list_elem_of_lookup. eauto.
  - apply numbered_lookup. exists (Z.to_nat (i - 1)). split; [done | lia].
Qed.

(** C1, as amended: when no training ID is the literal string "unk", the
    constructed vocabulary maps every raw ID to one index, these indices are
    exactly [1, N] for N the number of distinct IDs, they follow first-seen
    order (first distinct ID 1, second 2, ...), and "unk" maps to 0. *)
Theorem build_vocab_contract column :
  "unk" ∉ column → vocab_contract column (build_vocab column).
Proof.
  intros Hunk.
  assert (∀ x, x ∈ column → build_vocab column !! x = numbered column !! x)
    as Hsame.
  { intros x Hx. apply build_vocab_lookup_ne. by intros ->. }
  repeat split.
  - intros x Hx. rewrite (Hsame x Hx).
    destruct (numbered column !! x) as [i|] eqn:E.
    + exists i. split; [done|]. by eapply numbered_in_range.
    + by apply numbered_lookup_None in E.
  - intros x y i Hx Hy. rewrite (Hsame x Hx), (Hsame y Hy).
    apply numbered_injective.
  - intros i Hi. destruct (numbered_onto column i Hi) as (x & Hx & Hxi).
    exists x. split; [done|]. by rewrite (Hsame x Hx).
  - intros k x Hk. rewrite Hsame.
    + apply numbered_lookup. eauto.
    + apply elem_of_unique, list_elem_of_lookup. eauto.
  - apply build_vocab_unk.
Qed.

Lemma build_vocab_contract_witness :
  ("unk" ∉ ["u1"; "u2"; "u1"])
  ∧ vocab_contract ["u1"; "u2"; "u1"] (build_vocab ["u1"; "u2"; "u1"]).
Proof.
  assert ("unk" ∉ ["u1"; "u2"; "u1"]) as H
    by (apply (bool_decide_unpack _); vm_compute; exact I).
  split; [exact H | exact (build_vocab_contract ["u1"; "u2"; "u1"] H)].
Defined.

(** C1, as stated, fails on a training column that contains the ID "unk":
    that ID ends at index 0, outside [1, N]. *)
Lemma build_vocab_contract_fails_on_unk :
  ¬ vocab_contract ["unk"; "u2"] (build_vocab ["unk"; "u2"]).
Proof.
  intros (Hidx & _). destruct (Hidx "unk") as (i & Hi & Hrange).
  - by left.
  - vm_compute in Hi. injection Hi as <-. lia.
Qed.

(** C5: a training ID equal to the literal "unk" had a positive index in the
    numbering, which the reserved entry overwrites with 0, an index outside
    [1, N]; the vocabulary then has N entries; and the vocabulary has N + 1
    entries exactly when no training ID is "unk". *)
Theorem unk_collision column :
  ("unk" ∈ column →
     (∃ i, numbered column !! "unk" = Some i ∧ 1 ≤ i ≤ distinct_count column)
     ∧ build_vocab column !! "unk" = Some 0
     ∧ (¬ ∃ i, build_vocab column !! "unk" = Some i
              ∧ 1 ≤ i ≤ distinct_count column)
     ∧ n_of column = distinct_count column)
  ∧ (n_of column = distinct_count column + 1 ↔ "unk" ∉ column).
Proof.
  assert (size (numbered column) = Z.to_nat (distinct_count column)) as Hsz.
  { rewrite numbered_size, <-len_unique_distinct_count.
    unfold id_set, len. lia. }
  assert (0 ≤ distinct_count column) as Hnn by (unfold distinct_count; lia).
  assert ("unk" ∈ column → n_of column = distinct_count column) as Hin.
  { intros Hunk. unfold n_of, len_dict, build_vocab.
    destruct (numbered column !! "unk") as [i|] eqn:E.
    - rewrite map_size_insert_Some by eauto. lia.
    - by apply numbered_lookup_None in E. }
  assert ("unk" ∉ column → n_of column = distinct_count column + 1) as Hout.
  { intros Hunk. unfold n_of, len_dict, build_vocab.
    rewrite map_size_insert_None by by apply numbered_lookup_None. lia. }
  split.
  - intros Hunk. repeat split.
    + destruct (numbered column !! "unk") as [i|] eqn:E.
      * exists i. split; [done|]. by eapply numbered_in_range.
      * by apply numbered_lookup_None in E.
    + apply build_vocab_unk.
    + intros (i & Hi & ?). rewrite build_vocab_unk in Hi.
      injection Hi as <-. lia.
    + by apply Hin.
  - split; [|done]. intros Hn Hunk. apply Hin in Hunk. lia.
Qed.

(** With the collision the largest training index equals the vocabulary
    size, which is the number of rows the embedding is given. *)
Example unk_collision_last_index :
  build_vocab ["unk"; "u2"] !! "u2" = Some 2 ∧ n_of ["unk"; "u2"] = 2.
Proof. by vm_compute. Qed.

Example unk_collision_example :
  numbered ["u1"; "unk"; "u3"] !! "unk" = Some 2
  ∧ build_vocab ["u1"; "unk"; "u3"] !! "unk" = Some 0
  ∧ n_of ["u1"; "unk"; "u3"] = 3
  ∧ n_of ["u1"; "u2"; "u3"] = 4.
Proof. by vm_compute. Qed.

End vocab_builder.

(** ** The index lookups and the notebook's globals *)

Section lookups.
Import Vocab Notebook.

Lemma contains_spec (d : gmap string Z) x :
  contains d x = true ↔ is_Some (d !! x).
Proof. unfold contains. apply bool_decide_eq_true. Qed.

Lemma serving_lambda_run d x g :
  serving_lambda d x g = (Ok (default 0 (d g !! x)), g).
Proof.
  unfold serving_lambda, mbind, M_bind, bind, global_contains, global_getitem,
    contains, getitem, ret.
  destruct (d g !! x) as [i|] eqn:E.
  - rewrite bool_decide_eq_true_2 by eauto. by rewrite E.
  - rewrite bool_decide_eq_false_2; [done|]. by intros [? ?].
Qed.

Lemma series_apply_cons f x rest g :
  series_apply f (x :: rest) g
  = match f x g with
    | (Ok i, g') =>
        match series_apply f rest g' with
        | (Ok js, g'') => (Ok (i :: js), g'')
        | (Raise e, g'') => (Raise e, g'')
        end
    | (Raise e, g') => (Raise e, g')
    end.
Proof.
  cbn [series_apply]. unfold mbind, M_bind, bind, mret, M_ret, ret.
  destruct (f x g) as [[i|e] g']; [|done].
  by destruct (series_apply f rest g') as [[js|e] g''].
Qed.

Lemma series_apply_serving d column g :
  series_apply (serving_lambda d) column g
  = (Ok ((λ x, default 0 (d g !! x)) <$> column), g).
Proof.
  induction column as [|x rest IH]; [done|].
  by rewrite series_apply_cons, serving_lambda_run, IH.
Qed.

(** The training lookups can raise [KeyError], but they too only read. *)
Lemma series_apply_train_globals d column g :
  (series_apply (train_lambda d) column g).2 = g.
Proof.
  induction column as [|x rest IH]; [done|].
  rewrite series_apply_cons. unfold train_lambda at 1, global_getitem.
  destruct (getitem (d g) x); [|done].
  destruct (series_apply (train_lambda d) rest g) as [[js|e] g'] eqn:E;
    simpl in IH |- *; by subst.
Qed.

Lemma series_apply_train d column g :
  (∀ x, x ∈ column → is_Some (d g !! x)) →
  series_apply (train_lambda d) column g
  = (Ok ((λ x, default 0 (d g !! x)) <$> column), g).
Proof.
  induction column as [|x rest IH]; intros Hin; [done|].
  rewrite series_apply_cons. unfold train_lambda at 1, global_getitem, getitem.
  destruct (Hin x) as [i Hi]; [by left|]. rewrite Hi.
  rewrite IH by (intros y Hy; apply Hin; by right).
  by rewrite fmap_cons, Hi.
Qed.

(** C3: the lookup of the validation and test cells returns 0 for an ID that
    is absent from the vocabulary and the stored index for an ID that is
    present; it never raises, on a single ID or on a whole column. *)
Theorem serving_lookup_fallback (d : globals → gmap string Z) g x column :
  (d g !! x = None → (serving_lambda d x g).1 = Ok 0)
  ∧ (∀ i, d g !! x = Some i → (serving_lambda d x g).1 = Ok i)
  ∧ (∃ i, (serving_lambda d x g).1 = Ok i)
  ∧ (series_apply (serving_lambda d) column g).1
    = Ok ((λ y, default 0 (d g !! y)) <$> column).
Proof.
  rewrite serving_lambda_run, series_apply_serving. cbn [fst].
  repeat split.
  - by intros ->.
  - by intros i ->.
  - eauto.
Qed.

(** The scenario of the specification: training users u1, u2, then a request
    for the unseen user u3. *)
Example serving_lookup_scenario :
  let g := (cell_vocab {| ReviewerID := ["u1"; "u2"];
                           ProductID := ["p1"; "p2"] |} initial).2 in
  (cell_test {| ReviewerID := ["u3"; "u2"]; ProductID := ["p1"; "p9"] |} g).1
  = Ok ()
  ∧ test_users
      (cell_test {| ReviewerID := ["u3"; "u2"]; ProductID := ["p1"; "p9"] |} g).2
    = [0; 2]
  ∧ test_items
      (cell_test {| ReviewerID := ["u3"; "u2"]; ProductID := ["p1"; "p9"] |} g).2
    = [1; 0].
Proof. by vm_compute. Qed.

Lemma cell_val_run val_df g :
  cell_val val_df g
  = set_val ((λ x, default 0 (user_vocab g !! x)) <$> ReviewerID val_df)
            ((λ x, default 0 (business_vocab g !! x)) <$> ProductID val_df) g.
Proof.
  unfold cell_val, mbind, M_bind, bind.
  by rewrite !series_apply_serving.
Qed.

Lemma cell_test_run test_df g :
  cell_test test_df g
  = set_test ((λ x, default 0 (user_vocab g !! x)) <$> ReviewerID test_df)
             ((λ x, default 0 (business_vocab g !! x)) <$> ProductID test_df) g.
Proof.
  unfold cell_test, mbind, M_bind, bind.
  by rewrite !series_apply_serving.
Qed.

Lemma cell_index_keeps tr_df val_df : keeps_vocabs (cell_index tr_df val_df).
Proof.
  intros g. unfold cell_index, mbind, M_bind, bind.
  pose proof (series_apply_train_globals user_vocab (ReviewerID tr_df) g) as H1.
  destruct (series_apply (train_lambda user_vocab) (ReviewerID tr_df) g)
    as [[tu|e] g1]; simpl in H1; subst g1; [|done].
  pose proof (series_apply_train_globals business_vocab (ProductID tr_df) g)
    as H2.
  destruct (series_apply (train_lambda business_vocab) (ProductID tr_df) g)
    as [[ti|e] g2]; simpl in H2; subst g2; [|done].
  cbn [set_tr]. by rewrite !series_apply_serving.
Qed.

(** C9: the validation and test lookups leave the globals, and so both
    vocabularies, unchanged; the cells that run them (and store the looked-up
    index arrays) end with the same [user_vocab] and [business_vocab], key
    for key, that they started with. *)
Theorem serving_keeps_vocabs (d : globals → gmap string Z) x column
    tr_df val_df test_df :
  (∀ g, (serving_lambda d x g).2 = g)
  ∧ (∀ g, (series_apply (serving_lambda d) column g).2 = g)
  ∧ keeps_vocabs (cell_val val_df)
  ∧ keeps_vocabs (cell_index tr_df val_df)
  ∧ keeps_vocabs (cell_test test_df).
Proof.
  split; [|split; [|split; [|split]]].
  - intros g. by rewrite serving_lambda_run.
  - intros g. by rewrite series_apply_serving.
  - intros g. by rewrite cell_val_run.
  - apply cell_index_keeps.
  - intros g. by rewrite cell_test_run.
Qed.

(** Every training ID is a key of the vocabulary built from its column, so
    the training lookups of [cell_index] do not raise after [cell_vocab]. *)
Lemma train_id_in_vocab column x :
  x ∈ column → is_Some (build_vocab column !! x).
Proof.
  intros Hx. destruct (decide (x = "unk")) as [->|Hne].
  - rewrite build_vocab_unk. eauto.
  - rewrite build_vocab_lookup_ne by done.
    destruct (numbered column !! x) eqn:E; [eauto|].
    by apply numbered_lookup_None in E.
Qed.

(** X4: run after the vocabulary cell, the index cell and the test cell
    return without raising, whatever the three frames hold, and both
    vocabularies are still the ones built from the training columns. *)
Lemma notebook_cells_run tr_df val_df test_df g :
  let g1 := (cell_vocab tr_df g).2 in
  let g2 := (cell_index tr_df val_df g1).2 in
  let g3 := (cell_test test_df g2).2 in
  (cell_index tr_df val_df g1).1 = Ok ()
  ∧ (cell_test test_df g2).1 = Ok ()
  ∧ user_vocab g3 = build_vocab (ReviewerID tr_df)
  ∧ business_vocab g3 = build_vocab (ProductID tr_df).
Proof.
  intros g1 g2 g3.
  assert (user_vocab g1 = build_vocab (ReviewerID tr_df)) as Hu by done.
  assert (business_vocab g1 = build_vocab (ProductID tr_df)) as Hb by done.
  destruct (cell_index_keeps tr_df val_df g1) as [Hu2 Hb2].
  pose proof (cell_test_run test_df g2) as Ht. fold g2 in Hu2, Hb2.
  repeat split.
  - unfold cell_index, mbind, M_bind, bind.
    rewrite series_apply_train
      by (intros x Hx; rewrite Hu; by apply train_id_in_vocab).
    rewrite series_apply_train
      by (intros x Hx; rewrite Hb; by apply train_id_in_vocab).
    cbn [set_tr]. by rewrite !series_apply_serving.
  - by rewrite Ht.
  - unfold g3. rewrite Ht. cbn. congruence.
  - unfold g3. rewrite Ht. cbn. congruence.
Qed.

End lookups.

(** ** The RMSE metric *)

Section rmse_facts.
Import Rmse.

Lemma take_nonzero_from prefix arr actual :
  length arr = length actual →
  take (prefix ++ arr) (nonzero_from (length prefix) actual)
  = Ok (select arr actual).
Proof.
  revert prefix arr.
  induction actual as [|y actual IH]; intros prefix [|x arr] Hlen;
    try discriminate; [done|].
  injection Hlen as Hlen. unfold select. cbn [nonzero_from zip zip_with].
  pose proof (IH (prefix ++ [x]) arr Hlen) as IH'.
  rewrite <-app_assoc, length_app, Nat.add_1_r in IH'. cbn [app] in IH'.
  destruct (decide (y = 0%R)) as [Hy|Hy].
  - rewrite filter_cons_False by (cbn; tauto). exact IH'.
  - rewrite filter_cons_True by done. unfold take in *. cbn [rmapM].
    rewrite list_lookup_middle by done. cbn [rbind].
    rewrite IH'. done.
Qed.

Lemma take_nonzero arr actual :
  length arr = length actual →
  take arr (nonzero actual) = Ok (select arr actual).
Proof. intros Hlen. by apply (take_nonzero_from [] arr actual). Qed.

Lemma select_fst pred actual :
  select pred actual = (rated_pairs pred actual).*1.
Proof. done. Qed.

Lemma select_snd pred actual :
  length pred = length actual →
  select actual actual = (rated_pairs pred actual).*2.
Proof.
  revert pred. unfold select, rated_pairs.
  induction actual as [|y actual IH]; intros [|x pred] Hlen;
    try discriminate; [done|].
  injection Hlen as Hlen. cbn [zip zip_with].
  destruct (decide (y = 0%R)) as [Hy|Hy].
  - rewrite !filter_cons_False by (cbn; tauto). by apply IH.
  - rewrite !filter_cons_True by done. cbn. f_equal. by apply IH.
Qed.

Lemma zip_with_fst_snd {C} (f : R → R → C) (l : list (R * R)) :
  zip_with f l.*1 l.*2 = (λ pa, f pa.1 pa.2) <$> l.
Proof. induction l as [|[p a] l IH]; [done|]. cbn. by rewrite IH. Qed.

Lemma rated_pairs_nonempty pred actual :
  length pred = length actual →
  (∃ a, a ∈ actual ∧ a ≠ 0%R) →
  rated_pairs pred actual ≠ [].
Proof.
  intros Hlen (a & Ha & Hnz) Hnil.
  apply list_elem_of_lookup in Ha as [i Hi].
  destruct (lookup_lt_is_Some_2 pred i) as [p Hp].
  { rewrite Hlen. by eapply lookup_lt_Some. }
  assert ((p, a) ∈ rated_pairs pred actual) as Hin.
  { unfold rated_pairs. apply list_elem_of_filter. split; [done|].
    apply list_elem_of_lookup. exists i. by apply lookup_zip_Some. }
  rewrite Hnil in Hin. inversion Hin.
Qed.

(** On its regular domain [rmse] returns, and returns what the
    specification describes. *)
Lemma rmse_run pred actual :
  length pred = length actual →
  rated_pairs pred actual ≠ [] →
  rmse pred actual = Ok (rmse_spec pred actual).
Proof.
  intros Hlen Hne. unfold rmse.
  rewrite (take_nonzero pred actual Hlen), (take_nonzero actual actual eq_refl).
  cbn [rbind]. rewrite select_fst, (select_snd pred actual Hlen).
  unfold mean_squared_error. rewrite !length_fmap, Nat.eqb_refl. cbn [negb].
  destruct (rated_pairs pred actual) as [|pa l] eqn:E; [done|].
  cbn [length Nat.eqb rbind]. unfold rmse_spec. rewrite E.
  by rewrite zip_with_fst_snd.
Qed.

(** C2: for equal-length sequences with at least one non-zero actual entry,
    [rmse] returns the square root of the mean of the squared differences
    over the pairs that remain after every pair with a zero actual value is
    dropped. *)
Theorem rmse_definition pred actual :
  length pred = length actual →
  (∃ a, a ∈ actual ∧ a ≠ 0%R) →
  rmse pred actual = Ok (rmse_spec pred actual).
Proof.
  intros Hlen Hnz. apply rmse_run; [done|]. by apply rated_pairs_nonempty.
Qed.

Lemma rmse_definition_witness :
  length [3%R; 5%R] = length [0%R; 4%R]
  ∧ (∃ a, a ∈ [0%R; 4%R] ∧ a ≠ 0%R)
  ∧ rmse [3%R; 5%R] [0%R; 4%R] = Ok (rmse_spec [3%R; 5%R] [0%R; 4%R]).
Proof.
  assert (∃ a, a ∈ [0%R; 4%R] ∧ a ≠ 0%R) as Hnz.
  { exists 4%R. split; [right; left | lra]. }
  split; [reflexivity|]. split; [exact Hnz|].
  exact (rmse_definition [3%R; 5%R] [0%R; 4%R] eq_refl Hnz).
Defined.

Lemma nonzero_from_all_zero i actual :
  Forall (λ a, a = 0%R) actual → nonzero_from i actual = [].
Proof.
  intros Hall. revert i.
  induction Hall as [|y actual Hy _ IH]; intros i; [done|].
  cbn [nonzero_from]. by rewrite decide_True.
Qed.

(** C4: when every actual entry is zero, nothing is left after the zero
    entries are dropped and [rmse] raises (the error of the empty mean)
    instead of returning a number; the lengths play no role here. *)
Theorem rmse_all_zero_raises pred actual :
  Forall (λ a, a = 0%R) actual →
  rmse pred actual = Raise ValueError.
Proof.
  intros Hall. unfold rmse, nonzero.
  by rewrite (nonzero_from_all_zero 0 actual Hall).
Qed.

Lemma rmse_all_zero_raises_witness :
  Forall (λ a, a = 0%R) [0%R; 0%R]
  ∧ rmse [1%R; 2%R] [0%R; 0%R] = Raise ValueError.
Proof.
  assert (Forall (λ a, a = 0%R) [0%R; 0%R]) as Hall
    by (repeat constructor).
  split; [exact Hall | exact (rmse_all_zero_raises [1%R; 2%R] [0%R; 0%R] Hall)].
Defined.

Lemma sum_list_zeros (l : list R) :
  Forall (λ x, x = 0%R) l → sum_list l = 0%R.
Proof.
  induction 1 as [|x l Hx _ IH]; [done|].
  cbn. unfold sum_list in IH. rewrite Hx, IH. lra.
Qed.

Lemma rmse_spec_nonneg pred actual : (0 <= rmse_spec pred actual)%R.
Proof. apply sqrt_pos. Qed.

Lemma rmse_spec_agree pred actual :
  (∀ i p a, pred !! i = Some p → actual !! i = Some a → a ≠ 0%R → p = a) →
  rmse_spec pred actual = 0%R.
Proof.
  intros Hagree. unfold rmse_spec, mean.
  rewrite sum_list_zeros.
  - unfold Rdiv. rewrite Rmult_0_l. apply sqrt_0.
  - apply Forall_fmap, Forall_forall. intros [p a] Hin. cbn.
    apply list_elem_of_filter in Hin as [Hnz Hin]. cbn in Hnz.
    apply list_elem_of_lookup in Hin as [i Hi].
    apply lookup_zip_Some in Hi as [Hp Ha].
    rewrite (Hagree i p a Hp Ha Hnz). lra.
Qed.

(** C6: for equal-length sequences with at least one non-zero actual entry,
    [rmse] returns 0 when the prediction agrees with the actual value at
    every position whose actual value is non-zero, and what it returns is
    never negative. *)
Theorem rmse_identity_and_sign pred actual :
  length pred = length actual →
  (∃ a, a ∈ actual ∧ a ≠ 0%R) →
  ((∀ i p a, pred !! i = Some p → actual !! i = Some a → a ≠ 0%R → p = a) →
     rmse pred actual = Ok 0%R)
  ∧ (∃ r, rmse pred actual = Ok r ∧ (0 <= r)%R).
Proof.
  intros Hlen Hnz.
  rewrite (rmse_run pred actual Hlen (rated_pairs_nonempty _ _ Hlen Hnz)).
  split.
  - intros Hagree. by rewrite rmse_spec_agree.
  - eexists. split; [done|]. apply rmse_spec_nonneg.
Qed.

Lemma rmse_identity_and_sign_witness :
  length [7%R; 4%R] = length [0%R; 4%R]
  ∧ (∃ a, a ∈ [0%R; 4%R] ∧ a ≠ 0%R)
  ∧ rmse [7%R; 4%R] [0%R; 4%R] = Ok 0%R.
Proof.
  assert (∃ a, a ∈ [0%R; 4%R] ∧ a ≠ 0%R) as Hnz.
  { exists 4%R. split; [right; left | lra]. }
  split; [reflexivity|]. split; [exact Hnz|].
  apply (rmse_identity_and_sign [7%R; 4%R] [0%R; 4%R] eq_refl Hnz).
  intros [|[|i]] p a Hp Ha Hne; cbn in Hp, Ha; try discriminate.
  - injection Ha as <-. lra.
  - injection Hp as <-. by injection Ha as <-.
Defined.

End rmse_facts.

(** ** [build_ncf_model] *)

Section ncf_facts.
Import Ncf.


Example build_ncf_model_notebook_call :
  outputs <$> (match build_ncf_model 7 9 16 (PyFloat 0) "mlp" with
               | Ok m => Some m
               | Raise _ => None
               end)
  = Some (Dense 1 None None
           (Dropout (PyFloat 0) (Dense 32 (Some "relu") (Some "l2")
             (Dropout (PyFloat 0) (Dense 64 (Some "relu") (Some "l2")
               (Concatenate
                  (Reshape [16] (Embedding 16 7 1 (Input [1] "int32" "user_input")))
                  (Reshape [16] (Embedding 16 9 1 (Input [1] "int32" "item_input"))))))))).
Proof. reflexivity. Qed.

Example build_ncf_model_other_layer :
  build_ncf_model 7 9 16 default_dropout "MLP" = Raise NotImplementedError.
Proof. reflexivity. Qed.

End ncf_facts.

(** ** [load_data] *)

Section load_data_facts.
Import Sentiment.

Lemma get_column_Ok df label c :
  get_column df label = Ok c → c.1 = label ∧ c ∈ df.
Proof.
  unfold get_column.
  destruct (list_find _ df) as [[i c']|] eqn:E; [|discriminate].
  intros [= ->]. apply list_find_Some in E as (Hi & Hc & _).
  split; [done|]. apply list_elem_of_lookup. eauto.
Qed.

Lemma get_column_Raise df label e :
  get_column df label = Raise e → label ∉ column_labels df.
Proof.
  unfold get_column.
  destruct (list_find _ df) as [[i c']|] eqn:E; [discriminate|].
  intros _ Hin. apply list_elem_of_fmap in Hin as (c & -> & Hc).
  eapply list_find_None, Forall_forall in E; [|exact Hc]. by apply E.
Qed.

(** A successful selection has exactly the requested labels, in the
    requested order, and each of its columns is a column of the frame. *)
Lemma loc_columns_Ok df columns sel :
  loc_columns df columns = Ok sel →
  column_labels sel = columns ∧ (∀ c, c ∈ sel → c ∈ df).
Proof.
  unfold loc_columns, column_labels. revert sel.
  induction columns as [|label columns IH]; intros sel; cbn [rmapM].
  - intros [= <-]. split; [done|]. intros c Hc. inversion Hc.
  - destruct (get_column df label) as [c|e] eqn:Ec; [|discriminate].
    destruct (rmapM (get_column df) columns) as [cs|e]; [|discriminate].
    cbn [rbind]. intros [= <-].
    apply get_column_Ok in Ec as [Hl Hin].
    destruct (IH cs eq_refl) as [IH1 IH2]. split.
    + cbn. by rewrite Hl, IH1.
    + intros c' [->|Hc']%elem_of_cons; auto.
Qed.

(** The selection fails only when a requested label is not a column. *)
Lemma loc_columns_Raise df columns e :
  loc_columns df columns = Raise e →
  ∃ label, label ∈ columns ∧ label ∉ column_labels df.
Proof.
  unfold loc_columns. revert e.
  induction columns as [|label columns IH]; intros e; cbn [rmapM];
    [discriminate|].
  destruct (get_column df label) as [c|e'] eqn:Ec.
  - destruct (rmapM (get_column df) columns) as [cs|e'']; [discriminate|].
    intros _. destruct (IH e'' eq_refl) as (l & Hl & Hnot).
    exists l. split; [by right | done].
  - intros _. exists label. split; [by left|]. by eapply get_column_Raise.
Qed.

(** C8: once the CSV is loaded, a failing column selection makes [load_data]
    print the fallback line and return the frame with all its columns, no
    exception leaving the function; a successful selection makes it return
    a frame with exactly the requested columns. *)
Theorem load_data_fallback read_csv split_name columns folder df out :
  read_csv (csv_path folder split_name) = Ok df →
  (∀ e, loc_columns df columns = Raise e →
     load_data read_csv split_name columns folder out
     = (Ok df, out ++ [select_message columns split_name;
                       failed_message split_name]))
  ∧ (∀ sel, loc_columns df columns = Ok sel →
     load_data read_csv split_name columns folder out
     = (Ok sel, out ++ [select_message columns split_name; "Success"])
     ∧ column_labels sel = columns
     ∧ (∀ c, c ∈ sel → c ∈ df)).
Proof.
  intros Hread. unfold load_data, try_except, io_bind, print, lift, io_ret.
  rewrite Hread. split.
  - intros e ->. by rewrite <-app_assoc.
  - intros sel Hsel. rewrite Hsel. split; [by rewrite <-app_assoc|].
    by apply loc_columns_Ok.
Qed.

(** An unreadable CSV is not covered by the fallback: the second
    [read_csv], in the handler, raises again and this exception leaves
    [load_data]. *)
Lemma load_data_unreadable read_csv split_name columns folder e out :
  read_csv (csv_path folder split_name) = Raise e →
  load_data read_csv split_name columns folder out
  = (Raise e, out ++ [select_message columns split_name;
                      failed_message split_name]).
Proof.
  intros Hread. unfold load_data, try_except, io_bind, print, lift, io_ret.
  rewrite Hread. by rewrite <-app_assoc.
Qed.

End load_data_facts.

Lemma load_data_fallback_witness :
  Samples.disk (Sentiment.csv_path "data" "valid") = Ok Samples.valid_csv
  ∧ Sentiment.load_data Samples.disk "valid" ["id"; "stars"] "data" []
    = (Ok Samples.valid_csv,
       ["select [id, stars] columns from the valid split";
        "Failed loading specified columns... Returning all columns from the valid split"])
  ∧ Sentiment.load_data Samples.disk "valid" ["label"; "id"] "data" []
    = (Ok [("label", ["3"; "4"]); ("id", ["A29_6848"; "A1F_10874"])],
       ["select [label, id] columns from the valid split"; "Success"]).
Proof.
  pose proof (load_data_fallback Samples.disk "valid" ["id"; "stars"] "data"
                Samples.valid_csv [] eq_refl) as [Hfail _].
  pose proof (load_data_fallback Samples.disk "valid" ["label"; "id"] "data"
                Samples.valid_csv [] eq_refl) as [_ Hsel].
  split; [reflexivity|]. split.
  - exact (Hfail (KeyError "stars") eq_refl).
  - exact (proj1 (Hsel _ eq_refl)).
Defined.

(** ** [SAM.predict] *)

Section predict_facts.
Import Sentiment.

Lemma argmax_from_lt best best_i i t :
  (best_i < i)%nat → (argmax_from best best_i i t < i + length t)%nat.
Proof.
  revert best best_i i. induction t as [|x t IH]; intros best best_i i Hlt.
  - cbn. lia.
  - cbn [argmax_from length]. destruct (Rlt_dec best x).
    + specialize (IH x i (S i)). lia.
    + specialize (IH best best_i (S i)). lia.
Qed.

Lemma argmax_range t :
  t ≠ [] → ∃ i, argmax t = Ok i ∧ (i < length t)%nat.
Proof.
  destruct t as [|x t]; [done|]. intros _. eexists. split; [done|].
  pose proof (argmax_from_lt x 0 1 t). cbn [length]. lia.
Qed.

Lemma length_softmax t : length (softmax t) = length t.
Proof. unfold softmax. by rewrite length_fmap. Qed.

Lemma length_linear m x :
  linear_shape_ok m → length (linear m x) = class_num m.
Proof.
  intros [Hw Hb]. unfold linear. rewrite length_zip_with. lia.
Qed.

(** C7: for every input text, [predict] returns the argmax of the softmax of
    the class logits plus one, a class index between 1 and [class_num];
    the head has the shape [nn.Linear(768, class_num)] gives it and there is
    at least one class. *)
Theorem predict_label_one_based (encoding : Type)
    (encode_plus : string → nat → encoding)
    (pooler_output : encoding → list R) (m : SAM) (text : string) :
  linear_shape_ok m →
  (1 ≤ class_num m)%nat →
  ∃ i, argmax (softmax (logits encoding encode_plus pooler_output m text))
       = Ok i
     ∧ predict encoding encode_plus pooler_output m text = Ok (i + 1)%nat
     ∧ (1 ≤ i + 1 ≤ class_num m)%nat.
Proof.
  intros Hshape Hpos. unfold predict.
  destruct (argmax_range
              (softmax (logits encoding encode_plus pooler_output m text)))
    as (i & Hi & Hlt).
  - intros Hnil. apply (f_equal length) in Hnil.
    rewrite length_softmax in Hnil. unfold logits in Hnil.
    rewrite length_linear in Hnil by done. cbn in Hnil. lia.
  - exists i. rewrite Hi. split; [done|]. split; [done|].
    rewrite length_softmax in Hlt. unfold logits in Hlt.
    rewrite length_linear in Hlt by done. lia.
Qed.

Lemma predict_label_one_based_witness :
  linear_shape_ok Samples.two_class
  ∧ (1 ≤ class_num Samples.two_class)%nat
  ∧ ∃ i, predict nat Samples.encode_length Samples.pooled
           Samples.two_class "great" = Ok (i + 1)%nat
       ∧ (1 ≤ i + 1 ≤ 2)%nat.
Proof.
  assert (linear_shape_ok Samples.two_class) as Hshape by (split; reflexivity).
  assert (1 ≤ class_num Samples.two_class)%nat as Hpos by (cbn; lia).
  split; [exact Hshape|]. split; [exact Hpos|].
  destruct (predict_label_one_based nat Samples.encode_length Samples.pooled
              Samples.two_class "great" Hshape Hpos) as (i & _ & Hp & Hr).
  exists i. split; [exact Hp | exact Hr].
Defined.

End predict_facts.

(* ================================================================= *)
(** * Further properties of the notebooks' code *)

(** ** The vocabulary and the index arrays *)

Section vocab_more.
Import Vocab Notebook.

(** X1: the keys of the vocabulary are the training IDs and "unk". *)
Theorem build_vocab_keys column :
  dom (build_vocab column) = list_to_set column ∪ {["unk"]}.
Proof.
  apply set_eq. intros x.
  rewrite elem_of_dom, elem_of_union, elem_of_list_to_set, elem_of_singleton.
  destruct (decide (x = "unk")) as [->|Hne].
  - rewrite build_vocab_unk. split; eauto.
  - rewrite build_vocab_lookup_ne by done. split.
    + intros [i Hi]. left. destruct (decide (x ∈ column)) as [|Hn]; [done|].
      apply numbered_lookup_None in Hn. congruence.
    + intros [Hx|?]; [|done].
      destruct (numbered column !! x) eqn:E; [eauto|].
      by apply numbered_lookup_None in E.
Qed.

Lemma numbered_app_stable column more x :
  x ∈ column → numbered (column ++ more) !! x = numbered column !! x.
Proof.
  intros Hx. destruct (numbered column !! x) as [i|] eqn:E.
  - apply numbered_lookup in E as (k & Hk & ->).
    apply numbered_lookup. exists k. split; [|done].
    unfold id_set, unique in *. rewrite unique_from_app.
    by apply lookup_app_l_Some.
  - by apply numbered_lookup_None in E.
Qed.

(** X2: an ID keeps its index when more training rows are appended. *)
Theorem build_vocab_app_stable column more x :
  x ∈ column →
  build_vocab (column ++ more) !! x = build_vocab column !! x.
Proof.
  intros Hx. destruct (decide (x = "unk")) as [->|Hne].
  - by rewrite !build_vocab_unk.
  - rewrite !build_vocab_lookup_ne by done. by apply numbered_app_stable.
Qed.

Lemma build_vocab_app_stable_witness :
  "u1" ∈ ["u1"; "u2"]
  ∧ build_vocab (["u1"; "u2"] ++ ["u0"; "u1"; "u3"]) !! "u1"
    = build_vocab ["u1"; "u2"] !! "u1".
Proof.
  assert ("u1" ∈ ["u1"; "u2"]) as H by (by left).
  split; [exact H|].
  exact (build_vocab_app_stable ["u1"; "u2"] ["u0"; "u1"; "u3"] "u1" H).
Defined.

(** X3: a further row of an ID that was seen before changes nothing. *)
Theorem build_vocab_repeat column x :
  x ∈ column → build_vocab (column ++ [x]) = build_vocab column.
Proof.
  intros Hx. unfold build_vocab, numbered, id_set. cbv zeta.
  by rewrite unique_snoc, decide_True, app_nil_r.
Qed.

Lemma build_vocab_repeat_witness :
  "u2" ∈ ["u1"; "u2"; "u3"]
  ∧ build_vocab (["u1"; "u2"; "u3"] ++ ["u2"]) = build_vocab ["u1"; "u2"; "u3"].
Proof.
  assert ("u2" ∈ ["u1"; "u2"; "u3"]) as H by (right; by left).
  split; [exact H | exact (build_vocab_repeat ["u1"; "u2"; "u3"] "u2" H)].
Defined.

Lemma n_of_without_unk column :
  "unk" ∉ column → n_of column = distinct_count column + 1.
Proof.
  intros Hunk. unfold n_of, len_dict, build_vocab.
  rewrite map_size_insert_None by by apply numbered_lookup_None.
  rewrite numbered_size, <-len_unique_distinct_count. unfold id_set, len. lia.
Qed.

Lemma build_vocab_index_range column x i :
  "unk" ∉ column →
  build_vocab column !! x = Some i →
  0 ≤ i < n_of column ∧ (x ∈ column → 1 ≤ i).
Proof.
  intros Hunk Hi. rewrite n_of_without_unk by done.
  destruct (decide (x = "unk")) as [->|Hne].
  - rewrite build_vocab_unk in Hi. injection Hi as <-.
    assert (0 ≤ distinct_count column) by (unfold distinct_count; lia).
    split; [lia | done].
  - rewrite build_vocab_lookup_ne in Hi by done.
    apply numbered_in_range in Hi. lia.
Qed.

(** X6: on the built vocabulary the serving lookup answers 0 exactly for the
    IDs that are not training IDs and for "unk" itself. *)
Theorem serving_zero_iff_unseen tr_df g x :
  (serving_lambda user_vocab x (cell_vocab tr_df g).2).1 = Ok 0
  ↔ x ∉ ReviewerID tr_df ∨ x = "unk".
Proof.
  rewrite serving_lambda_run. cbn [fst snd cell_vocab set_vocabs user_vocab].
  destruct (decide (x = "unk")) as [->|Hne].
  - rewrite build_vocab_unk. split; auto.
  - rewrite build_vocab_lookup_ne by done.
    destruct (numbered (ReviewerID tr_df) !! x) as [i|] eqn:E; cbn.
    + pose proof (numbered_in_range _ _ _ E) as Hr. split.
      * intros [= ->]. lia.
      * intros [Hx|?]; [|done]. apply numbered_lookup_None in Hx. congruence.
    + apply numbered_lookup_None in E. split; auto.
Qed.

Lemma cell_index_run tr_df val_df g :
  (∀ x, x ∈ ReviewerID tr_df → is_Some (user_vocab g !! x)) →
  (∀ x, x ∈ ProductID tr_df → is_Some (business_vocab g !! x)) →
  cell_index tr_df val_df g
  = set_val ((λ x, default 0 (user_vocab g !! x)) <$> ReviewerID val_df)
            ((λ x, default 0 (business_vocab g !! x)) <$> ProductID val_df)
      (set_tr ((λ x, default 0 (user_vocab g !! x)) <$> ReviewerID tr_df)
              ((λ x, default 0 (business_vocab g !! x)) <$> ProductID tr_df)
              g).2.
Proof.
  intros Hu Hb. unfold cell_index, mbind, M_bind, bind.
  rewrite (series_apply_train user_vocab) by done.
  rewrite (series_apply_train business_vocab) by done.
  cbn [set_tr]. by rewrite !series_apply_serving.
Qed.

Lemma lookups_in_range column (rows : list string) :
  "unk" ∉ column →
  Forall (λ i, 0 ≤ i < n_of column)
         ((λ x, default 0 (build_vocab column !! x)) <$> rows).
Proof.
  intros Hunk. apply Forall_fmap, Forall_forall. intros x _. cbn.
  destruct (build_vocab column !! x) as [i|] eqn:E; cbn.
  - by apply (build_vocab_index_range column x i).
  - rewrite n_of_without_unk by done.
    assert (0 ≤ distinct_count column) by (unfold distinct_count; lia). lia.
Qed.

Lemma train_lookups_in_range column :
  "unk" ∉ column →
  Forall (λ i, 1 ≤ i < n_of column)
         ((λ x, default 0 (build_vocab column !! x)) <$> column).
Proof.
  intros Hunk. apply Forall_fmap, Forall_forall. intros x Hx. cbn.
  destruct (train_id_in_vocab column x Hx) as [i Hi]. rewrite Hi. cbn.
  destruct (build_vocab_index_range column x i Hunk Hi) as [? Hpos].
  specialize (Hpos Hx). lia.
Qed.

(** X5: when no training ID is "unk", every index the vocabulary, index and
    test cells store is a row of the embedding table of size [n_users]
    (resp. [n_items]): training indices lie in [1, n - 1], validation and
    test indices in [0, n - 1]. *)
Theorem stored_indices_are_rows tr_df val_df test_df g0 :
  "unk" ∉ ReviewerID tr_df →
  "unk" ∉ ProductID tr_df →
  ∃ g, (cell_test test_df
          (cell_index tr_df val_df (cell_vocab tr_df g0).2).2) = (Ok (), g)
     ∧ Forall (λ i, 1 ≤ i < n_users g) (tr_users g)
     ∧ Forall (λ i, 1 ≤ i < n_items g) (tr_items g)
     ∧ Forall (λ i, 0 ≤ i < n_users g) (val_users g ++ test_users g)
     ∧ Forall (λ i, 0 ≤ i < n_items g) (val_items g ++ test_items g).
Proof.
  intros Hu Hb. eexists. split.
  - rewrite cell_index_run, cell_test_run; [reflexivity| |];
      intros x Hx; by apply train_id_in_vocab.
  - cbn. repeat split.
    + by apply train_lookups_in_range.
    + by apply train_lookups_in_range.
    + apply Forall_app. split; by apply lookups_in_range.
    + apply Forall_app. split; by apply lookups_in_range.
Qed.

End vocab_more.

Lemma stored_indices_are_rows_witness :
  ("unk" ∉ ["u1"; "u2"; "u1"])
  ∧ ("unk" ∉ ["p1"; "p1"; "p2"])
  ∧ ∃ g, Notebook.cell_test
           {| Notebook.ReviewerID := ["u2"]; Notebook.ProductID := ["p7"] |}
           (Notebook.cell_index
              {| Notebook.ReviewerID := ["u1"; "u2"; "u1"];
                 Notebook.ProductID := ["p1"; "p1"; "p2"] |}
              {| Notebook.ReviewerID := ["u9"]; Notebook.ProductID := ["p2"] |}
              (Notebook.cell_vocab
                 {| Notebook.ReviewerID := ["u1"; "u2"; "u1"];
                    Notebook.ProductID := ["p1"; "p1"; "p2"] |}
                 Notebook.initial).2).2 = (Ok (), g)
       ∧ Forall (λ i, 1 ≤ i < Notebook.n_users g) (Notebook.tr_users g)
       ∧ Forall (λ i, 1 ≤ i < Notebook.n_items g) (Notebook.tr_items g)
       ∧ Forall (λ i, 0 ≤ i < Notebook.n_users g)
                (Notebook.val_users g ++ Notebook.test_users g)
       ∧ Forall (λ i, 0 ≤ i < Notebook.n_items g)
                (Notebook.val_items g ++ Notebook.test_items g).
Proof.
  assert ("unk" ∉ ["u1"; "u2"; "u1"]) as Hu
    by (apply (bool_decide_unpack _); vm_compute; exact I).
  assert ("unk" ∉ ["p1"; "p1"; "p2"]) as Hp
    by (apply (bool_decide_unpack _); vm_compute; exact I).
  split; [exact Hu|]. split; [exact Hp|].
  exact (stored_indices_are_rows
           {| Notebook.ReviewerID := ["u1"; "u2"; "u1"];
              Notebook.ProductID := ["p1"; "p1"; "p2"] |}
           {| Notebook.ReviewerID := ["u9"]; Notebook.ProductID := ["p2"] |}
           {| Notebook.ReviewerID := ["u2"]; Notebook.ProductID := ["p7"] |}
           Notebook.initial Hu Hp).
Defined.

(** ** More on the RMSE metric *)

Section rmse_more.
Import Rmse.

Lemma select_ext pred pred' actual :
  length pred = length actual →
  length pred' = length actual →
  (∀ i a, actual !! i = Some a → a ≠ 0%R → pred !! i = pred' !! i) →
  select pred actual = select pred' actual.
Proof.
  revert pred pred'. unfold select.
  induction actual as [|y actual IH]; intros [|x pred] [|x' pred'] Hl Hl' Hsame;
    try discriminate; [done|].
  injection Hl as Hl. injection Hl' as Hl'. cbn [zip zip_with].
  assert ((filter (λ xa : R * R, xa.2 ≠ 0%R) (zip pred actual)).*1
          = (filter (λ xa : R * R, xa.2 ≠ 0%R) (zip pred' actual)).*1) as Htl.
  { apply IH; [done..|]. intros i a Ha Hnz. exact (Hsame (S i) a Ha Hnz). }
  destruct (decide (y = 0%R)) as [Hy|Hy].
  - rewrite !filter_cons_False by (cbn; tauto). exact Htl.
  - rewrite !filter_cons_True by done. cbn [fmap list_fmap fst].
    f_equal; [|exact Htl].
    specialize (Hsame 0%nat y eq_refl Hy). by injection Hsame.
Qed.

(** X8: predictions at the positions whose actual value is zero have no
    influence on [rmse]. *)
Theorem rmse_ignores_unrated pred pred' actual :
  length pred = length actual →
  length pred' = length actual →
  (∀ i a, actual !! i = Some a → a ≠ 0%R → pred !! i = pred' !! i) →
  rmse pred actual = rmse pred' actual.
Proof.
  intros Hl Hl' Hsame. unfold rmse.
  rewrite (take_nonzero pred actual Hl), (take_nonzero pred' actual Hl').
  by rewrite (select_ext pred pred' actual).
Qed.

Lemma rmse_ignores_unrated_witness :
  length [9%R; 5%R] = length [0%R; 4%R]
  ∧ length [1%R; 5%R] = length [0%R; 4%R]
  ∧ rmse [9%R; 5%R] [0%R; 4%R] = rmse [1%R; 5%R] [0%R; 4%R].
Proof.
  split; [reflexivity|]. split; [reflexivity|].
  apply (rmse_ignores_unrated [9%R; 5%R] [1%R; 5%R] [0%R; 4%R] eq_refl eq_refl).
  intros [|[|i]] a Ha Hnz; cbn in Ha; try discriminate.
  - injection Ha as <-. by destruct Hnz.
  - reflexivity.
Defined.












Lemma elem_of_nonzero_from k actual j a :
  actual !! j = Some a → a ≠ 0%R → (k + j)%nat ∈ nonzero_from k actual.
Proof.
  revert k j. induction actual as [|y actual IH]; intros k j Ha Hne;
    [discriminate|].
  cbn [nonzero_from]. destruct j as [|j]; cbn in Ha.
  - injection Ha as ->. rewrite decide_False by done.
    rewrite Nat.add_0_r. by left.
  - replace (k + S j)%nat with (S k + j)%nat by lia.
    destruct (decide (y = 0%R)); [|right]; by apply IH.
Qed.

Lemma take_out_of_range arr idx i :
  i ∈ idx → (length arr ≤ i)%nat → take arr idx = Raise IndexError.
Proof.
  unfold take. intros Hin Hlen.
  induction idx as [|j idx IH]; [inversion Hin|]. cbn [rmapM].
  destruct (arr !! j) as [v|] eqn:Ej; [|done]. cbn [rbind].
  rewrite IH; [done|]. apply elem_of_cons in Hin as [->|Hin]; [|done].
  apply lookup_ge_None_2 in Hlen. congruence.
Qed.

(** X11: a prediction array that ends before a position with a non-zero
    actual value makes [rmse] raise [IndexError]. *)
Theorem rmse_short_pred pred actual i a :
  actual !! i = Some a → a ≠ 0%R → (length pred ≤ i)%nat →
  rmse pred actual = Raise IndexError.
Proof.
  intros Ha Hne Hlen. unfold rmse, nonzero.
  rewrite (take_out_of_range pred _ i); [done| |done].
  exact (elem_of_nonzero_from 0 actual i a Ha Hne).
Qed.

Lemma rmse_short_pred_witness :
  [0%R; 4%R] !! 1%nat = Some 4%R
  ∧ 4%R ≠ 0%R
  ∧ (length [3%R] ≤ 1)%nat
  ∧ rmse [3%R] [0%R; 4%R] = Raise IndexError.
Proof.
  assert (4%R ≠ 0%R) as Hne by lra.
  assert (length [3%R] ≤ 1)%nat as Hlen by (cbn; lia).
  split; [reflexivity|]. split; [exact Hne|]. split; [exact Hlen|].
  exact (rmse_short_pred [3%R] [0%R; 4%R] 1%nat 4%R eq_refl Hne Hlen).
Defined.

End rmse_more.

(** ** The model builders *)

Section ncf_more.
Import Ncf.

(** X12: a built model has the two embedding tables asked for, [n_users]
    and [n_items] rows of width [embed_size]; the 'dot' model has no dropout
    layer, so its [dropout] argument plays no role, and the 'mlp' model has
    two, both with the given rate. *)
Theorem build_ncf_model_layers n_users n_items embed_size dropout output_layer
    model :
  build_ncf_model n_users n_items embed_size dropout output_layer = Ok model →
  embedding_tables (outputs model)
    = [(n_users, embed_size); (n_items, embed_size)]
  ∧ length (inputs model) = 2%nat
  ∧ (output_layer = "dot" → dropout_rates (outputs model) = [])
  ∧ (output_layer = "mlp" →
       dropout_rates (outputs model) = [dropout; dropout]).
Proof.
  unfold build_ncf_model.
  destruct (String.eqb output_layer "dot") eqn:Edot.
  - apply String.eqb_eq in Edot as ->. cbn. intros [= <-]. cbn.
    repeat split; (done || discriminate).
  - destruct (String.eqb output_layer "mlp") eqn:Emlp; [|discriminate].
    apply String.eqb_eq in Emlp as ->. cbn. intros [= <-]. cbn.
    repeat split; (done || discriminate).
Qed.

Lemma build_ncf_model_layers_witness :
  build_ncf_model 7 9 16 (PyFloat 0) "mlp"
  = Ok {| inputs := [Input [1] "int32" "user_input";
                     Input [1] "int32" "item_input"];
          outputs :=
            Dense 1 None None
              (Dropout (PyFloat 0) (Dense 32 (Some "relu") (Some "l2")
                (Dropout (PyFloat 0) (Dense 64 (Some "relu") (Some "l2")
                  (Concatenate
                     (Reshape [16]
                        (Embedding 16 7 1 (Input [1] "int32" "user_input")))
                     (Reshape [16]
                        (Embedding 16 9 1 (Input [1] "int32" "item_input")))))))) |}
  ∧ embedding_tables
      (Dense 1 None None
         (Dropout (PyFloat 0) (Dense 32 (Some "relu") (Some "l2")
           (Dropout (PyFloat 0) (Dense 64 (Some "relu") (Some "l2")
             (Concatenate
                (Reshape [16]
                   (Embedding 16 7 1 (Input [1] "int32" "user_input")))
                (Reshape [16]
                   (Embedding 16 9 1 (Input [1] "int32" "item_input")))))))))
    = [(7, 16); (9, 16)].
Proof.
  split; [reflexivity|].
  exact (proj1 (build_ncf_model_layers 7 9 16 (PyFloat 0) "mlp" _ eq_refl)).
Defined.


End ncf_more.

(** ** The parameter sweep *)

Section sweep_facts.
Import Sweep.

Lemma string_length_app (a s : string) :
  String.length (a +:+ s) = (String.length a + String.length s)%nat.
Proof. induction a as [|c a IH]; simpl; [done|]. by rewrite IH. Qed.

Lemma string_app_inj_r (a b s : string) : a +:+ s = b +:+ s → a = b.
Proof.
  revert b. induction a as [|c a IH]; intros [|d b] Heq.
  - done.
  - apply (f_equal String.length) in Heq.
    rewrite !string_length_app in Heq. simpl in Heq. lia.
  - apply (f_equal String.length) in Heq.
    rewrite !string_length_app in Heq. simpl in Heq. lia.
  - injection Heq as -> Heq. f_equal. by apply IH.
Qed.

Lemma checkpoint_file_inj i j : checkpoint_file i = checkpoint_file j → i = j.
Proof.
  unfold checkpoint_file. intros Heq.
  apply (inj (String.app "models/model")) in Heq.
  apply string_app_inj_r in Heq. by apply (inj pretty) in Heq.
Qed.

Variable fit_predict : Ncf.Model → string → list R.
Variable n_users n_items : Z.
Variable val_ratings : list R.

Lemma round_step embed dp st :
  in_step st →
  match round fit_predict n_users n_items val_ratings embed dp st with
  | (Ok _, st') => in_step st' ∧ counter st' = counter st + 1
  | (Raise _, st') => stopped st'
  end.
Proof.
  intros (n & Hc & Hf & Hp). unfold round. cbn.
  destruct (Rmse.rmse _ val_ratings) as [score|e].
  - split; [|done]. exists (S n). cbn. split; [lia|]. split.
    + unfold files_upto in *. cbn. by rewrite Hf, seqZ_S, fmap_app, Hc.
    + rewrite length_app. cbn. lia.
  - exists (S n). split.
    + unfold files_upto in *. cbn. by rewrite Hf, seqZ_S, fmap_app, Hc.
    + cbn. lia.
Qed.

Lemma in_step_stopped st : in_step st → stopped st.
Proof. intros (n & _ & Hf & Hp). exists n. split; [done | lia]. Qed.

Lemma inner_loop_step embed dropouts st :
  in_step st →
  match inner_loop fit_predict n_users n_items val_ratings embed dropouts st
  with
  | (Ok _, st') => in_step st' ∧ counter st' = counter st + len_list dropouts
  | (Raise _, st') => stopped st'
  end.
Proof.
  revert st. induction dropouts as [|dp dropouts IH]; intros st Hst.
  - cbn. split; [done|]. unfold len_list. cbn. lia.
  - cbn [inner_loop]. pose proof (round_step embed dp st Hst) as Hr.
    destruct (round _ _ _ _ embed dp st) as [[[]|e] st']; [|done].
    destruct Hr as [Hst' Hc]. specialize (IH st' Hst').
    destruct (inner_loop _ _ _ _ embed dropouts st') as [[[]|e] st'']; [|done].
    destruct IH as [? Hc']. split; [done|].
    rewrite Hc', Hc. unfold len_list. cbn [length]. lia.
Qed.

Lemma outer_loop_step embed_sizes dropouts st :
  in_step st →
  match outer_loop fit_predict n_users n_items val_ratings embed_sizes
          dropouts st
  with
  | (Ok _, st') =>
      in_step st'
      ∧ counter st' = counter st + len_list embed_sizes * len_list dropouts
  | (Raise _, st') => stopped st'
  end.
Proof.
  revert st. induction embed_sizes as [|embed embed_sizes IH]; intros st Hst.
  - cbn. split; [done|]. unfold len_list. cbn. lia.
  - cbn [outer_loop].
    pose proof (inner_loop_step embed dropouts st Hst) as Hr.
    destruct (inner_loop _ _ _ _ embed dropouts st) as [[[]|e] st']; [|done].
    destruct Hr as [Hst' Hc]. specialize (IH st' Hst').
    destruct (outer_loop _ _ _ _ embed_sizes dropouts st') as [[[]|e] st''];
      [|done].
    destruct IH as [? Hc']. split; [done|].
    rewrite Hc', Hc. unfold len_list. cbn [length]. lia.
Qed.

Lemma in_step_start :
  in_step {| counter := 0; checkpoints := []; printed := [] |}.
Proof. by exists 0%nat. Qed.

Lemma files_upto_NoDup n st : files_upto n st → NoDup (checkpoints st).
Proof.
  unfold files_upto. intros ->. apply NoDup_fmap_2_strong.
  - intros i j _ _. apply checkpoint_file_inj.
  - apply NoDup_seqZ.
Qed.

(** X14: whatever the training does and however the sweep ends, the
    checkpoint files it has written are model0.h5, model1.h5, ... in this
    order, each once, and there is at most one printed line per file. *)
Theorem sweep_checkpoints_distinct embed_sizes dropouts :
  ∃ n : nat,
    checkpoints
      (sweep fit_predict n_users n_items val_ratings embed_sizes dropouts).2
    = checkpoint_file <$> seqZ 0 (Z.of_nat n)
    ∧ NoDup (checkpoints
        (sweep fit_predict n_users n_items val_ratings embed_sizes dropouts).2)
    ∧ (length (printed
         (sweep fit_predict n_users n_items val_ratings embed_sizes
            dropouts).2) ≤ n)%nat.
Proof.
  unfold sweep.
  pose proof (outer_loop_step embed_sizes dropouts _ in_step_start) as H.
  destruct (outer_loop _ _ _ _ embed_sizes dropouts _) as [[[]|e] st].
  - destruct H as [(n & _ & Hf & Hp) _]. exists n. cbn.
    split; [done|]. split; [by eapply files_upto_NoDup | lia].
  - destruct H as (n & Hf & Hp). exists n. cbn.
    split; [done|]. split; [by eapply files_upto_NoDup | done].
Qed.

Hypothesis one_prediction_per_row :
  ∀ model file, length (fit_predict model file) = length val_ratings.
Hypothesis some_rating : ∃ a, a ∈ val_ratings ∧ a ≠ 0%R.





End sweep_facts.


(** ** More on [load_data] *)

Section load_data_more.
Import Sentiment.

Variable read_csv : string → result DataFrame.

Lemma get_column_present df label :
  label ∈ column_labels df → ∃ c, get_column df label = Ok c.
Proof.
  intros Hin. apply list_elem_of_fmap in Hin as (c & -> & Hc).
  unfold get_column.
  destruct (list_find_elem_of (λ c' : string * list string, c'.1 = c.1)
              df c Hc eq_refl) as [[i c'] ->].
  eauto.
Qed.

Lemma loc_columns_present df columns :
  (∀ label, label ∈ columns → label ∈ column_labels df) →
  ∃ sel, loc_columns df columns = Ok sel.
Proof.
  unfold loc_columns.
  induction columns as [|label columns IH]; intros Hall; cbn [rmapM]; [eauto|].
  destruct (get_column_present df label) as [c ->]; [apply Hall; by left|].
  destruct IH as [sel ->]; [intros l Hl; apply Hall; by right|].
  cbn. eauto.
Qed.

Lemma failed_message_not_success split_name :
  failed_message split_name ≠ "Success".
Proof. unfold failed_message. discriminate. Qed.

(** X16: [load_data] always prints two lines, the selection line and then
    either "Success" or the fallback line, and it raises exactly when
    [read_csv] raises on the path of the split, with that exception. *)
Theorem load_data_outcome split_name columns folder out :
  (∀ e, (load_data read_csv split_name columns folder out).1 = Raise e
        ↔ read_csv (csv_path folder split_name) = Raise e)
  ∧ ∃ line,
      (load_data read_csv split_name columns folder out).2
      = out ++ [select_message columns split_name; line]
      ∧ (line = "Success" ∨ line = failed_message split_name).
Proof.
  unfold load_data, try_except, io_bind, print, lift, io_ret.
  destruct (read_csv (csv_path folder split_name)) as [df|e0]; cbn.
  - destruct (loc_columns df columns) as [sel|e1]; cbn.
    + split; [done|]. exists "Success". rewrite <-app_assoc. auto.
    + split; [done|]. exists (failed_message split_name).
      rewrite <-app_assoc. auto.
  - split; [done|]. exists (failed_message split_name).
    rewrite <-app_assoc. auto.
Qed.

(** X17: with a readable CSV, [load_data] falls back to the whole frame
    exactly when one of the requested labels is not a column of the CSV. *)
Theorem load_data_falls_back_iff split_name columns folder df out :
  read_csv (csv_path folder split_name) = Ok df →
  (load_data read_csv split_name columns folder out
   = (Ok df, out ++ [select_message columns split_name;
                     failed_message split_name]))
  ↔ ∃ label, label ∈ columns ∧ label ∉ column_labels df.
Proof.
  intros Hread. unfold load_data, try_except, io_bind, print, lift, io_ret.
  rewrite Hread. cbn. split.
  - destruct (loc_columns df columns) as [sel|e] eqn:E; cbn.
    + rewrite <-app_assoc. intros [= _ Hout]. cbn in Hout.
      apply app_inv_head in Hout. injection Hout as Hout.
      by destruct (failed_message_not_success split_name).
    + intros _. by eapply loc_columns_Raise.
  - intros (label & Hin & Hnot).
    destruct (loc_columns df columns) as [sel|e] eqn:E; cbn.
    + exfalso. apply Hnot. apply loc_columns_Ok in E as [Hlabels Hsub].
      unfold column_labels in *. rewrite <-Hlabels in Hin.
      apply list_elem_of_fmap in Hin as (c & -> & Hc).
      apply Hsub in Hc. by apply list_elem_of_fmap_2.
    + by rewrite <-app_assoc.
Qed.

End load_data_more.

Lemma load_data_falls_back_iff_witness :
  Samples.disk (Sentiment.csv_path "data" "valid") = Ok Samples.valid_csv
  ∧ (∃ label, label ∈ ["id"; "stars"]
              ∧ label ∉ Sentiment.column_labels Samples.valid_csv)
  ∧ Sentiment.load_data Samples.disk "valid" ["id"; "stars"] "data" []
    = (Ok Samples.valid_csv,
       [] ++ [Sentiment.select_message ["id"; "stars"] "valid";
              Sentiment.failed_message "valid"]).
Proof.
  assert (∃ label, label ∈ ["id"; "stars"]
                   ∧ label ∉ Sentiment.column_labels Samples.valid_csv) as Hmiss.
  { exists "stars". split; [right; by left|].
    apply (bool_decide_unpack _). vm_compute. exact I. }
  split; [reflexivity|]. split; [exact Hmiss|].
  exact (proj2 (load_data_falls_back_iff Samples.disk "valid" ["id"; "stars"]
                  "data" Samples.valid_csv [] eq_refl) Hmiss).
Defined.

Section frames.
Import Sentiment.

Lemma get_column_cons c df label :
  get_column (c :: df) label
  = if decide (c.1 = label) then Ok c else get_column df label.
Proof.
  unfold get_column. cbn [list_find]. destruct (decide (c.1 = label)); [done|].
  by destruct (list_find _ df) as [[i c']|].
Qed.


Lemma get_column_NoDup df c :
  NoDup (column_labels df) → c ∈ df → get_column df c.1 = Ok c.
Proof.
  unfold column_labels.
  induction df as [|c0 df IH]; intros Hnd Hc; [inversion Hc|].
  rewrite get_column_cons. rewrite fmap_cons in Hnd.
  apply NoDup_cons in Hnd as [Hfresh Hnd].
  apply elem_of_cons in Hc as [->|Hc].
  - by rewrite decide_True.
  - rewrite decide_False; [by apply IH|].
    intros Heq. apply Hfresh. rewrite Heq. by apply list_elem_of_fmap_2.
Qed.

Lemma loc_columns_all (df l : DataFrame) :
  (∀ c, c ∈ l → get_column df c.1 = Ok c) →
  loc_columns df (column_labels l) = Ok l.
Proof.
  unfold loc_columns, column_labels.
  induction l as [|c l IH]; intros Hget; [done|].
  rewrite fmap_cons. cbn [rmapM]. rewrite (Hget c) by by left.
  cbn [rbind]. rewrite IH; [done|]. intros c' Hc'. apply Hget. by right.
Qed.

(** X18: asking for all the labels of a CSV whose labels are pairwise
    different gives the frame back as it was read, with "Success". *)
Theorem load_data_all_columns read_csv split_name folder df out :
  read_csv (csv_path folder split_name) = Ok df →
  NoDup (column_labels df) →
  load_data read_csv split_name (column_labels df) folder out
  = (Ok df, out ++ [select_message (column_labels df) split_name; "Success"]).
Proof.
  intros Hread Hnd. unfold load_data, try_except, io_bind, print, lift, io_ret.
  rewrite Hread. cbn.
  rewrite loc_columns_all by (intros c Hc; by apply get_column_NoDup).
  cbn. by rewrite <-app_assoc.
Qed.



End frames.

Lemma load_data_all_columns_witness :
  Samples.disk (Sentiment.csv_path "data" "valid") = Ok Samples.valid_csv
  ∧ NoDup (Sentiment.column_labels Samples.valid_csv)
  ∧ Sentiment.load_data Samples.disk "valid" ["id"; "text"; "label"] "data" []
    = (Ok Samples.valid_csv,
       [] ++ [Sentiment.select_message ["id"; "text"; "label"] "valid";
              "Success"]).
Proof.
  assert (NoDup (Sentiment.column_labels Samples.valid_csv)) as Hnd
    by (apply (bool_decide_unpack _); vm_compute; exact I).
  split; [reflexivity|]. split; [exact Hnd|].
  exact (load_data_all_columns Samples.disk "valid" "data" Samples.valid_csv []
           eq_refl Hnd).
Defined.

(** ** The prediction loops *)

Section predict_loop.
Import Sentiment.

Variable encoding : Type.
Variable encode_plus : string → nat → encoding.
Variable pooler_output : encoding → list R.








End predict_loop.





(** ** [count_trainable_parameters] *)

Section count_facts.
Import Sentiment.

Variable render : list string → list (string * nat) → string.

Lemma count_loop_acc named_parameters rows total :
  count_loop named_parameters rows total
  = (rows ++ ((λ np, (np.1, numel np.2))
              <$> filter (λ np, requires_grad np.2 = true) named_parameters),
     (total + sum_list_with (λ np, numel np.2)
                (filter (λ np, requires_grad np.2 = true) named_parameters))%nat).
Proof.
  revert rows total.
  induction named_parameters as [|[name p] ps IH]; intros rows total.
  - cbn. by rewrite app_nil_r, Nat.add_0_r.
  - cbn [count_loop]. destruct (requires_grad p) eqn:Eg; cbn [negb].
    + rewrite filter_cons_True by done. rewrite IH. cbn.
      rewrite <-app_assoc. f_equal. lia.
    + rewrite filter_cons_False by (cbn; congruence). apply IH.
Qed.

(** X22: [count_trainable_parameters] returns the sum of [numel] over the
    parameters that require a gradient (frozen ones add nothing), puts one
    table row per such parameter, in order, and prints the table and then
    the total. *)
Theorem count_trainable_parameters_total named_parameters out :
  count_trainable_parameters render named_parameters out
  = (Ok (sum_list_with (λ np, numel np.2)
           (filter (λ np, requires_grad np.2 = true) named_parameters)),
     out ++ [render ["Modules"; "Parameters"]
               ((λ np, (np.1, numel np.2))
                <$> filter (λ np, requires_grad np.2 = true) named_parameters);
             "Total Trainable Params: "
             +:+ pretty (sum_list_with (λ np, numel np.2)
                           (filter (λ np, requires_grad np.2 = true)
                              named_parameters))]).
Proof.
  unfold count_trainable_parameters. rewrite count_loop_acc.
  unfold io_bind, print, io_ret. cbn. by rewrite <-app_assoc.
Qed.

End count_facts.

(** ** The label decode on the logits *)

Section decode_facts.
Import Sentiment.







End decode_facts.

(** ** First-seen order on the rows *)

Section first_seen.
Import Vocab.

(** X7: of two training IDs other than "unk", the one whose first row comes
    later has the larger index. *)
Theorem build_vocab_first_seen_order before x after y i j :
  y ∈ before → x ∉ before → x ≠ "unk" → y ≠ "unk" →
  build_vocab (before ++ x :: after) !! y = Some i →
  build_vocab (before ++ x :: after) !! x = Some j →
  i < j.
Proof.
  intros Hy Hx Hxu Hyu. rewrite !build_vocab_lookup_ne by done.
  by apply numbered_first_seen_order.
Qed.

Lemma build_vocab_first_seen_order_witness :
  "u1" ∈ ["u3"; "u1"]
  ∧ ("u2" ∉ ["u3"; "u1"])
  ∧ "u2" ≠ "unk"
  ∧ "u1" ≠ "unk"
  ∧ build_vocab (["u3"; "u1"] ++ "u2" :: ["u1"]) !! "u1" = Some 2
  ∧ build_vocab (["u3"; "u1"] ++ "u2" :: ["u1"]) !! "u2" = Some 3
  ∧ 2 < 3.
Proof.
  assert ("u1" ∈ ["u3"; "u1"]) as Hy by (right; by left).
  assert ("u2" ∉ ["u3"; "u1"]) as Hx
    by (apply (bool_decide_unpack _); vm_compute; exact I).
  assert ("u2" ≠ "unk") as Hxu by discriminate.
  assert ("u1" ≠ "unk") as Hyu by discriminate.
  split; [exact Hy|]. split; [exact Hx|]. split; [exact Hxu|].
  split; [exact Hyu|]. split; [reflexivity|]. split; [reflexivity|].
  exact (build_vocab_first_seen_order ["u3"; "u1"] "u2" ["u1"] "u1" 2 3
           Hy Hx Hxu Hyu eq_refl eq_refl).
Defined.

End first_seen.
